(** * The KV-backed whitelist cache of plugins/whitelist/kv.go

    A shallow embedding of the [Whitelist] type and its methods, of the
    change-apply goroutine started by [NewKVWhitelist], and of the pieces of
    the Go runtime they lean on: [sync.RWMutex], slices with their backing
    arrays, [errors.Is]/[errors.Unwrap].

    The methods are written in a small state monad over the process state.
    A computation either finishes, dies with a runtime fatal error (which
    ends the whole process), or parks its goroutine for ever. *)

From Stdlib Require Import Ascii String.
From stdpp Require Import base option list strings gmap.

Open Scope string_scope.
Open Scope nat_scope.
Open Scope list_scope.

(** ** Errors *)

Module errors.

(** The error values that can reach the whitelist.  [ErrKeyNotFound] is
    the sentinel [kv.ErrKeyNotFound]; [Wrap] is what [fmt.Errorf] builds
    with the [%w] verb. *)
Inductive error : Type :=
| ErrKeyNotFound
| ErrStore (msg : string)
| ErrJSON (msg : string)
| Wrap (msg : string) (inner : error).

#[global] Instance error_eq_dec : EqDecision error.
Proof. solve_decision. Defined.

(** [errors.Unwrap]: one step down the chain; [nil] has nothing inside. *)
Definition Unwrap (err : option error) : option error :=
  match err with
  | Some (Wrap _ inner) => Some inner
  | _ => None
  end.

Fixpoint chain_has (target e : error) : bool :=
  if decide (e = target) then true
  else match e with
       | Wrap _ inner => chain_has target inner
       | _ => false
       end.

(** [errors.Is] against a non-nil target: walks the whole chain. *)
Definition Is (err : option error) (target : error) : bool :=
  match err with
  | None => false
  | Some e => chain_has target e
  end.

End errors.
Export errors.

(** ** sync.RWMutex *)

(** The mutex as who holds it: a writer, or a number of readers.  A call
    that has to wait is an outcome of the call and leaves no mark in the
    state, so every state is one in which no [Lock] call is waiting. *)

Module sync.

Record RWMutex : Type := mkRWMutex { writer : bool; readers : nat }.

Definition unlocked : RWMutex := {| writer := false; readers := 0 |}.

(** What one call on the mutex does to the calling goroutine. *)
Inductive attempt : Type :=
| Acquired (mu : RWMutex)
| Parked
| Thrown (msg : string).

Definition Lock (mu : RWMutex) : attempt :=
  if writer mu then Parked
  else match readers mu with
       | 0 => Acquired {| writer := true; readers := 0 |}
       | S _ => Parked
       end.

Definition Unlock (mu : RWMutex) : attempt :=
  if writer mu then Acquired {| writer := false; readers := readers mu |}
  else Thrown "sync: Unlock of unlocked RWMutex".

Definition RLock (mu : RWMutex) : attempt :=
  if writer mu then Parked
  else Acquired {| writer := false; readers := S (readers mu) |}.

Definition RUnlock (mu : RWMutex) : attempt :=
  match readers mu with
  | 0 => Thrown "sync: RUnlock of unlocked RWMutex"
  | S n => Acquired {| writer := writer mu; readers := n |}
  end.

End sync.

(** ** Slices and the heap of backing arrays *)

Definition loc : Type := nat.
Definition bytes : Type := string.

(** A slice header: the backing array and the length.  The capacity is the
    size of the backing array (this file never re-slices from the left). *)
Record slice : Type := mkSlice { s_arr : loc; s_len : nat }.

Abbreviation heap := (gmap loc (list string)).

Definition array_at (h : heap) (l : loc) : list string := default [] (h !! l).

(** The elements a slice header denotes in a heap. *)
Definition view (h : heap) (s : slice) : list string :=
  take (s_len s) (array_at h (s_arr s)).

(** The header is backed by an allocated array that is long enough. *)
Definition slice_ok (h : heap) (s : slice) : Prop :=
  is_Some (h !! s_arr s) ∧ s_len s ≤ length (array_at h (s_arr s)).

(** ** The collaborators: the KV bucket, encoding/json, the allocator *)

(** [kv.Bucket]: an interface to a remote store.  A call may change the
    client's state and may fail. *)
Class Bucket (B : Type) : Type := {
  kv_Get : B → string → B * (bytes + error);
  kv_Set : B → string → bytes → B * option error;
}.

(** [json.Unmarshal(data, &dst)] decodes in place: it is given what [dst]
    holds, and yields what [dst] holds afterwards together with the text of
    its error when it fails.  [json.Marshal] of a [bool] or a [[]string]
    has no failure. *)
Class Json (T : Type) : Type := {
  Unmarshal : bytes → T → T * option string;
  Marshal : T → bytes;
}.

(** The capacity [append] picks when it has to reallocate is the runtime's
    choice (old capacity, needed length); it is never below the need. *)
Class Runtime : Type := { nextslicecap : nat → nat → nat }.

Definition newcap `{Runtime} (needed oldcap : nat) : nat :=
  needed `max` nextslicecap needed oldcap.

(** ** Process state and the monad *)

Inductive event : Type :=
| EvLock | EvUnlock | EvRLock | EvRUnlock
| EvGet (key : string)
| EvSet (key : string) (data : bytes)
| EvLog (msg : string).

#[global] Instance event_eq_dec : EqDecision event.
Proof. solve_decision. Defined.

(** One entry of the watcher's channel. *)
Record KeyValue : Type := mkKeyValue { Key : string; Value : bytes }.

Section whitelist.
Context {B : Type} `{!Bucket B} `{!Json bool} `{!Json (list string)} `{!Runtime}.

(** The struct of kv.go ([h] is only stored, never read by the methods). *)
Record Whitelist : Type := mkWhitelist {
  Enabled : bool;
  Whitelisted : slice;
  m : sync.RWMutex;
  kv : B;
}.

(** The process: the struct behind the [*Whitelist] pointer, the heap of
    backing arrays, and what has been observed from outside so far (lock
    operations, store calls, log lines), oldest first. *)
Record process : Type := mkProcess {
  self : Whitelist;
  mem : heap;
  trace : list event;
}.

Inductive outcome (A : Type) : Type :=
| Done (a : A) (p : process)
| Fatal (msg : string) (p : process)
| Blocked (p : process).
#[global] Arguments Done {A} a p.
#[global] Arguments Fatal {A} msg p.
#[global] Arguments Blocked {A} p.

Definition M (A : Type) : Type := process → outcome A.

#[global] Instance M_ret : MRet M := λ A a p, Done a p.

#[global] Instance M_bind : MBind M := λ A C k c p,
  match c p with
  | Done a p' => k a p'
  | Fatal msg p' => Fatal msg p'
  | Blocked p' => Blocked p'
  end.

(** [defer d] at the top of a function body: [d] runs when the body
    returns.  A fatal error does not run deferred calls. *)
Definition defer {A} (d : M unit) (body : M A) : M A :=
  a ← body; d;; mret a.

Definition emit (ev : event) : M unit :=
  λ p, Done tt {| self := self p; mem := mem p; trace := trace p ++ [ev] |}.

Definition get_self : M Whitelist := λ p, Done (self p) p.

Definition put_self (w : Whitelist) : M unit :=
  λ p, Done tt {| self := w; mem := mem p; trace := trace p |}.

Definition set_Enabled (b : bool) : M unit :=
  w ← get_self;
  put_self {| Enabled := b; Whitelisted := Whitelisted w; m := m w; kv := kv w |}.

Definition set_Whitelisted (s : slice) : M unit :=
  w ← get_self;
  put_self {| Enabled := Enabled w; Whitelisted := s; m := m w; kv := kv w |}.

Definition set_m (mu : sync.RWMutex) : M unit :=
  w ← get_self;
  put_self {| Enabled := Enabled w; Whitelisted := Whitelisted w; m := mu; kv := kv w |}.

Definition set_kv (b : B) : M unit :=
  w ← get_self;
  put_self {| Enabled := Enabled w; Whitelisted := Whitelisted w; m := m w; kv := b |}.

(** *** The mutex [w.m] *)

Definition on_mutex (op : sync.RWMutex → sync.attempt) (ev : event) : M unit :=
  w ← get_self;
  match op (m w) with
  | sync.Acquired mu => set_m mu;; emit ev
  | sync.Parked => λ p, Blocked p
  | sync.Thrown msg => λ p, Fatal msg p
  end.

Definition m_Lock : M unit := on_mutex sync.Lock EvLock.
Definition m_Unlock : M unit := on_mutex sync.Unlock EvUnlock.
Definition m_RLock : M unit := on_mutex sync.RLock EvRLock.
Definition m_RUnlock : M unit := on_mutex sync.RUnlock EvRUnlock.

(** *** Slices *)

Definition get_mem : M heap := λ p, Done (mem p) p.

Definition put_mem (h : heap) : M unit :=
  λ p, Done tt {| self := self p; mem := h; trace := trace p |}.

Definition alloc (arr : list string) : M loc :=
  h ← get_mem;
  let l := fresh (dom h) in
  put_mem (<[l := arr]> h);; mret l.

(** [make([]string, 0)] *)
Definition make_strings : M slice :=
  l ← alloc []; mret {| s_arr := l; s_len := 0 |}.

(** [append(s, xs...)]: in place when the capacity allows, otherwise into
    a new, larger array. *)
Definition append (s : slice) (xs : list string) : M slice :=
  h ← get_mem;
  let arr := array_at h (s_arr s) in
  let n := s_len s + length xs in
  if decide (n ≤ length arr) then
    put_mem (<[s_arr s := take (s_len s) arr ++ xs ++ drop n arr]> h);;
    mret {| s_arr := s_arr s; s_len := n |}
  else
    l ← alloc (take (s_len s) arr ++ xs ++ replicate (newcap n (length arr) - n) EmptyString);
    mret {| s_arr := l; s_len := n |}.

(** [slices.DeleteFunc(s, del)]: the kept elements are moved to the front
    of the same backing array, the vacated tail is zeroed, and the
    shortened header is returned. *)
Definition slices_DeleteFunc (s : slice) (del : string → bool) : M slice :=
  h ← get_mem;
  let arr := array_at h (s_arr s) in
  let kept := filter (λ x, del x = false) (take (s_len s) arr) in
  let zeroed := replicate (s_len s - length kept) EmptyString in
  put_mem (<[s_arr s := kept ++ zeroed ++ drop (s_len s) arr]> h);;
  mret {| s_arr := s_arr s; s_len := length kept |}.

(** [slices.Index] and [slices.Contains]: a linear scan. *)
Fixpoint slices_Index_from (i : nat) (l : list string) (v : string) : option nat :=
  match l with
  | [] => None
  | x :: l' => if decide (v = x) then Some i else slices_Index_from (S i) l' v
  end.

Definition slices_Contains (l : list string) (v : string) : bool :=
  match slices_Index_from 0 l v with
  | Some _ => true
  | None => false
  end.

Definition read_slice (s : slice) : M (list string) :=
  h ← get_mem; mret (view h s).

(** What the decoder leaves in a [[]string] destination: the backing
    array is reused when it is large enough. *)
Definition assign_slice (s : slice) (new : list string) : M slice :=
  h ← get_mem;
  let arr := array_at h (s_arr s) in
  if decide (length new ≤ length arr) then
    put_mem (<[s_arr s := new ++ drop (length new) arr]> h);;
    mret {| s_arr := s_arr s; s_len := length new |}
  else
    l ← alloc new; mret {| s_arr := l; s_len := length new |}.

(** *** Pointers to the two fields *)

Record ptr (T : Type) : Type := mkPtr { load : M T; store : T → M unit }.
#[global] Arguments load {T} _.
#[global] Arguments store {T} _ _.

Definition ref_Enabled : ptr bool :=
  {| load := (w ← get_self; mret (Enabled w)); store := set_Enabled |}.

Definition ref_Whitelisted : ptr (list string) :=
  {| load := (w ← get_self; read_slice (Whitelisted w));
     store := λ new, w ← get_self;
                     s ← assign_slice (Whitelisted w) new;
                     set_Whitelisted s |}.

(** [json.Unmarshal(data, dst)] *)
Definition json_Unmarshal {T} `{!Json T} (data : bytes) (dst : ptr T) : M (option error) :=
  old ← load dst;
  let '(new, failure) := Unmarshal data old in
  store dst new;;
  match failure with
  | Some msg => mret (Some (ErrJSON msg))
  | None => mret None
  end.

Definition log_Printf (msg : string) : M unit := emit (EvLog msg).

(** *** The store *)

Definition bucket_Get (key : string) : M (bytes + error) :=
  w ← get_self;
  let '(b, r) := kv_Get (kv w) key in
  set_kv b;; emit (EvGet key);; mret r.

Definition bucket_Set (key : string) (data : bytes) : M (option error) :=
  w ← get_self;
  let '(b, r) := kv_Set (kv w) key data in
  set_kv b;; emit (EvSet key data);; mret r.

(** Modelled from the spec: [hosting.GetKeyFromKV] is not among the
    sources.  It is the typed read of the spec's "Typed Accessors": fetch
    the raw value, decode it into the destination; a failed fetch is
    handed back wrapped, so that the caller finds [kv.ErrKeyNotFound] one
    [errors.Unwrap] down, as kv.go expects. *)
Definition GetKeyFromKV {T} `{!Json T} (key : string) (dst : ptr T) : M (option error) :=
  r ← bucket_Get key;
  match r with
  | inr e => mret (Some (Wrap "get key" e))
  | inl data =>
      err ← json_Unmarshal data dst;
      match err with
      | Some e => mret (Some (Wrap "unmarshal" e))
      | None => mret None
      end
  end.

(** Modelled from the spec: [hosting.SetKeyToKV] is not among the sources.
    It is the typed write of the spec's "Typed Accessors": encode the
    value and set the key. *)
Definition SetKeyToKV {T} `{!Json T} (key : string) (v : T) : M (option error) :=
  r ← bucket_Set key (Marshal v);
  match r with
  | Some e => mret (Some (Wrap "set key" e))
  | None => mret None
  end.

(** ** kv.go *)

(** What [NewKVWhitelist] builds once the bucket is open and the watcher
    is running: a fresh process whose only allocation is the empty
    [Whitelisted] made by [make([]string, 0)]. *)
Definition fresh_process (b : B) : process :=
  let l := fresh (dom (∅ : heap)) in
  {| self := {| Enabled := false;
                Whitelisted := {| s_arr := l; s_len := 0 |};
                m := sync.unlocked;
                kv := b |};
     mem := <[l := []]> ∅;
     trace := [] |}.

(** [NewKVWhitelist]: [opened] is what [h.KV().Bucket] returned and
    [watching] the error of [kv.WatchAll]. *)
Definition NewKVWhitelist (opened : B + error) (watching : option error)
  : process + error :=
  match opened with
  | inr err => inr err
  | inl b =>
      match watching with
      | Some err => inr err
      | None => inl (fresh_process b)
      end
  end.

(** The body of the goroutine's [for key := range watcher.Changes()],
    for one value received from the channel ([None] is a nil pointer). *)
Definition apply_change (key : option KeyValue) : M unit :=
  match key with
  | None => mret tt
  | Some key =>
      if decide (Key key = "enabled") then
        log_Printf ("Enabled key changed: " +:+ Value key);;
        m_Lock;;
        err ← json_Unmarshal (Value key) ref_Enabled;
        (if err is Some _ then
           m_Unlock;;
           log_Printf "Failed to unmarshal enabled key"
         else mret tt);;
        m_Unlock
      else if decide (Key key = "whitelisted") then
        log_Printf ("Whitelisted key changed: " +:+ Value key);;
        m_Lock;;
        err ← json_Unmarshal (Value key) ref_Whitelisted;
        (if err is Some _ then
           m_Unlock;;
           log_Printf "Failed to unmarshal whitelisted key"
         else mret tt);;
        m_Unlock
      else mret tt
  end.

(** The goroutine, on the values the channel delivers. *)
Fixpoint apply_loop (changes : list (option KeyValue)) : M unit :=
  match changes with
  | [] => mret tt
  | key :: rest => apply_change key;; apply_loop rest
  end.

Definition Reload : M (option error) :=
  m_Lock;;
  defer m_Unlock (
    err ← GetKeyFromKV "enabled" ref_Enabled;
    if Is (Unwrap err) ErrKeyNotFound then
      set_Enabled false;;
      err ← GetKeyFromKV "whitelisted" ref_Whitelisted;
      if Is (Unwrap err) ErrKeyNotFound then
        s ← make_strings;
        set_Whitelisted s;;
        mret None
      else if err is Some _ then
        mret err
      else
        mret None
    else
      mret err).

Definition saveEnabled : M (option error) :=
  m_Lock;;
  defer m_Unlock (
    w ← get_self;
    err ← SetKeyToKV "enabled" (Enabled w);
    if err is Some _ then mret err else mret None).

Definition saveWhitelisted : M (option error) :=
  m_Lock;;
  defer m_Unlock (
    w ← get_self;
    xs ← read_slice (Whitelisted w);
    err ← SetKeyToKV "whitelisted" xs;
    if err is Some _ then mret err else mret None).

Definition IsEnabled : M bool :=
  m_RLock;;
  defer m_RUnlock (
    w ← get_self;
    mret (Enabled w)).

Definition Enable : M (option error) :=
  m_Lock;;
  set_Enabled true;;
  m_Unlock;;
  saveEnabled.

Definition Disable : M (option error) :=
  m_Lock;;
  set_Enabled false;;
  m_Unlock;;
  saveEnabled.

Definition Add (uuid : string) : M (option error) :=
  m_Lock;;
  w ← get_self;
  s ← append (Whitelisted w) [uuid];
  set_Whitelisted s;;
  m_Unlock;;
  saveWhitelisted.

Definition Remove (uuid : string) : M (option error) :=
  m_Lock;;
  w ← get_self;
  s ← slices_DeleteFunc (Whitelisted w) (λ s, bool_decide (s = uuid));
  set_Whitelisted s;;
  m_Unlock;;
  saveWhitelisted.

Definition Contains (uuid : string) : M bool :=
  m_RLock;;
  defer m_RUnlock (
    w ← get_self;
    xs ← read_slice (Whitelisted w);
    mret (slices_Contains xs uuid)).

Definition AllWhitelisted : M slice :=
  m_RLock;;
  defer m_RUnlock (
    copy ← make_strings;
    w ← get_self;
    xs ← read_slice (Whitelisted w);
    copy ← append copy xs;
    mret copy).

(** ** What an observer sees *)

(** The members the cache holds: the elements of [w.Whitelisted]. *)
Definition members (p : process) : list string :=
  view (mem p) (Whitelisted (self p)).

(** The struct's slice header is backed and the mutex is free: the state
    between two calls when no other goroutine is inside the cache. *)
Definition quiet (p : process) : Prop :=
  slice_ok (mem p) (Whitelisted (self p)) ∧ m (self p) = sync.unlocked.

End whitelist.

Arguments Whitelist B : clear implicits.
Arguments process B : clear implicits.

(** ** Concrete collaborators for the examples *)

Module fixtures.

(** An in-memory bucket.  While [down] is set every call fails. *)
Record MemBucket : Type := mkMemBucket {
  stored : gmap string bytes;
  down : bool;
}.

#[export] Instance mem_bucket : Bucket MemBucket := {
  kv_Get b key :=
    if down b then (b, inr (ErrStore "unavailable"))
    else match stored b !! key with
         | Some data => (b, inl data)
         | None => (b, inr ErrKeyNotFound)
         end;
  kv_Set b key data :=
    if down b then (b, Some (ErrStore "unavailable"))
    else ({| stored := <[key := data]> (stored b); down := false |}, None);
}.

Definition dquote : ascii := "034"%char.

(** JSON white space: space, tab, line feed, carriage return. *)
Definition is_ws (c : ascii) : bool :=
  bool_decide (c = " "%char) || bool_decide (c = "009"%char)
  || bool_decide (c = "010"%char) || bool_decide (c = "013"%char).

Fixpoint ltrim (s : string) : string :=
  match s with
  | String c s' => if is_ws c then ltrim s' else s
  | EmptyString => EmptyString
  end.

Definition trim (s : string) : string :=
  String.rev (ltrim (String.rev (ltrim s))).

(** Decoding into a [bool] as encoding/json does it: [true] and [false]
    are stored, [null] is accepted and stores nothing, and any other
    input, JSON or not, is an error that stores nothing. *)
#[export] Instance json_bool : Json bool := {
  Unmarshal data dst :=
    let t := trim data in
    if decide (t = "true") then (true, None)
    else if decide (t = "false") then (false, None)
    else if decide (t = "null") then (dst, None)
    else (dst, Some "cannot unmarshal into Go value of type bool");
  Marshal b := if b then "true" else "false";
}.

(** Where the scanner of a string array stands. *)
Inductive scanning : Type :=
| AtStart          (* before the opening bracket *)
| AtFirst          (* after the opening bracket *)
| InString         (* inside a string literal *)
| AfterElement     (* after a closing quote *)
| AfterComma
| AtEnd.           (* after the closing bracket *)

Definition plain (c : ascii) : bool :=
  negb (bool_decide (c = dquote)) && negb (bool_decide (c = "092"%char))
  && bool_decide (32 ≤ nat_of_ascii c).

(** One pass over the input.  [cur] is the literal being read, reversed;
    [acc] the elements read so far, reversed. *)
Fixpoint scan (st : scanning) (cur : string) (acc : list string)
    (input : string) : option (list string) :=
  match input with
  | EmptyString => if st is AtEnd then Some (reverse acc) else None
  | String c rest =>
      match st with
      | AtStart =>
          if is_ws c then scan AtStart cur acc rest
          else if bool_decide (c = "["%char) then scan AtFirst cur acc rest
          else None
      | AtFirst =>
          if is_ws c then scan AtFirst cur acc rest
          else if bool_decide (c = "]"%char) then scan AtEnd cur acc rest
          else if bool_decide (c = dquote) then scan InString EmptyString acc rest
          else None
      | InString =>
          if bool_decide (c = dquote) then
            scan AfterElement EmptyString (String.rev cur :: acc) rest
          else if plain c then scan InString (String c cur) acc rest
          else None
      | AfterElement =>
          if is_ws c then scan AfterElement cur acc rest
          else if bool_decide (c = ","%char) then scan AfterComma cur acc rest
          else if bool_decide (c = "]"%char) then scan AtEnd cur acc rest
          else None
      | AfterComma =>
          if is_ws c then scan AfterComma cur acc rest
          else if bool_decide (c = dquote) then scan InString EmptyString acc rest
          else None
      | AtEnd => if is_ws c then scan AtEnd cur acc rest else None
      end
  end.

Definition quote (s : string) : string :=
  String dquote (s +:+ String dquote EmptyString).

Fixpoint join (l : list string) : string :=
  match l with
  | [] => EmptyString
  | [x] => quote x
  | x :: l' => quote x +:+ "," +:+ join l'
  end.

(** A decoder for the examples.  It reads arrays of string literals
    without escape sequences, and [null]; every other input is turned
    down with the destination left as it was.  That is what encoding/json
    does with input that is not JSON; on an array with an element that is
    not a string encoding/json fails after it has written part of the
    array, which this decoder does not follow, and no example feeds it
    one.  The theorems hold for any decoder; only the examples use this
    one. *)
#[export] Instance json_strings : Json (list string) := {
  Unmarshal data dst :=
    match scan AtStart EmptyString [] data with
    | Some l => (l, None)
    | None =>
        if decide (trim data = "null") then ([], None)
        else (dst, Some "invalid character")
    end;
  Marshal l := "[" +:+ join l +:+ "]";
}.

(** Growth by doubling. *)
#[export] Instance doubling : Runtime := {
  nextslicecap needed oldcap := oldcap + oldcap;
}.

Definition store_of (l : list (string * bytes)) : MemBucket :=
  {| stored := list_to_map l; down := false |}.

End fixtures.


(** ** Vocabulary of the statements *)

(** What the two typed accessors make of an error of the store and of a
    failure of the decoder. *)
Definition wrap_set (r : option error) : option error :=
  match r with Some e => Some (Wrap "set key" e) | None => None end.

Definition wrap_unmarshal (failure : option string) : option error :=
  match failure with Some msg => Some (Wrap "unmarshal" (ErrJSON msg)) | None => None end.

(** Whether every [set] of a trace is issued while the exclusive lock is
    free; [held] tells whether the lock is held when the trace starts. *)
Fixpoint sets_unlocked (held : bool) (tr : list event) : bool :=
  match tr with
  | [] => true
  | EvLock :: tr' => sets_unlocked true tr'
  | EvUnlock :: tr' => sets_unlocked false tr'
  | EvSet _ _ :: tr' => negb held && sets_unlocked held tr'
  | _ :: tr' => sets_unlocked held tr'
  end.

(** The events of one write-through mutation. *)
Definition write_through (key : string) (data : bytes) : list event :=
  [EvLock; EvUnlock; EvLock; EvSet key data; EvUnlock].

Section vocabulary.
Context {B : Type} `{!Bucket B} `{!Json bool} `{!Json (list string)} `{!Runtime}.

(** The store reports [key] as never set. *)
Definition absent_in (b : B) (key : string) : bool :=
  match (kv_Get b key).2 with
  | inr e => chain_has ErrKeyNotFound e
  | inl _ => false
  end.

(** The error [GetKeyFromKV] hands back for [key] when the destination
    holds [dst]. *)
Definition fetch_error {T} `{!Json T} (b : B) (key : string) (dst : T) : option error :=
  match (kv_Get b key).2 with
  | inr e => Some (Wrap "get key" e)
  | inl data => wrap_unmarshal (Unmarshal data dst).2
  end.

(** What the destination of [GetKeyFromKV] holds afterwards. *)
Definition after_fetch {T} `{!Json T} (b : B) (key : string) (dst : T) : T :=
  match (kv_Get b key).2 with
  | inr _ => dst
  | inl data => (Unmarshal data dst).1
  end.

(** The error [Reload] returns, read off the store: the [enabled] fetch
    decides unless it reports the key as never set, and then the
    [whitelisted] fetch decides, its own not-found being no error. *)
Definition Reload_error (p : process B) : option error :=
  let b := kv (self p) in
  let b1 := (kv_Get b "enabled").1 in
  if absent_in b "enabled" then
    if absent_in b1 "whitelisted" then None
    else fetch_error b1 "whitelisted" (members p)
  else fetch_error b "enabled" (Enabled (self p)).

(** The process with its heap replaced: what code outside the cache can do
    by writing through slices it holds. *)
Definition with_mem (p : process B) (h : heap) : process B :=
  {| self := self p; mem := h; trace := trace p |}.

(** A run of [Add] calls, one per identifier, in order. *)
Fixpoint Add_each (ids : list string) : M (list (option error)) :=
  match ids with
  | [] => mret []
  | id :: rest => err ← Add id; errs ← Add_each rest; mret (err :: errs)
  end.

End vocabulary.

(** ** Proof automation *)

Abbreviation st en wl mu b h tr :=
  {| self := {| Enabled := en; Whitelisted := wl; m := mu; kv := b |};
     mem := h; trace := tr |}.

(** Unfolds the monad and the bookkeeping, and leaves the heap operations,
    the store and the decoder alone. *)
Ltac exec :=
  cbv beta iota zeta delta
    [ Enable Disable Add Remove Contains AllWhitelisted IsEnabled Reload
      saveEnabled saveWhitelisted apply_change
      GetKeyFromKV SetKeyToKV bucket_Get bucket_Set json_Unmarshal log_Printf
      ref_Enabled ref_Whitelisted load store
      defer mbind M_bind mret M_ret emit get_self put_self
      set_Enabled set_Whitelisted set_m set_kv
      m_Lock m_Unlock m_RLock m_RUnlock on_mutex
      sync.Lock sync.Unlock sync.RLock sync.RUnlock sync.unlocked
      sync.writer sync.readers
      self mem trace Enabled Whitelisted m kv ].

(** The same for a method that calls a save helper, which stays folded. *)
Ltac exec_outer :=
  cbv beta iota zeta delta
    [ Enable Disable Add Remove AllWhitelisted Reload apply_change defer
      log_Printf mbind M_bind mret M_ret emit get_self put_self
      set_Enabled set_Whitelisted set_m
      m_Lock m_Unlock m_RLock m_RUnlock on_mutex
      sync.Lock sync.Unlock sync.RLock sync.RUnlock sync.unlocked
      sync.writer sync.readers
      self mem trace Enabled Whitelisted m kv ].

Ltac exec_heap :=
  cbv beta iota zeta delta
    [ alloc make_strings append slices_DeleteFunc read_slice assign_slice
      get_mem put_mem mbind M_bind mret M_ret self mem trace ].

Ltac flat := rewrite <- ?app_assoc; simpl.


(** ** Example states *)

Module examples.
Import fixtures.

(** What a test sees of a run: the result, the flag, the members and the
    events, or the crash, or a goroutine that never returns. *)
Inductive seen (A : Type) : Type :=
| Finished (a : A) (enabled : bool) (ids : list string) (events : list event)
| Crashed (msg : string) (enabled : bool) (ids : list string) (events : list event)
| Stuck.
Arguments Finished {A} a enabled ids events.
Arguments Crashed {A} msg enabled ids events.
Arguments Stuck {A}.

Definition observe {A} (o : outcome (B := MemBucket) A) : seen A :=
  match o with
  | Done a p => Finished a (Enabled (self p)) (members p) (trace p)
  | Fatal msg p => Crashed msg (Enabled (self p)) (members p) (trace p)
  | Blocked _ => Stuck
  end.

(** A cache holding [ids], enabled or not, over a given store. *)
Definition cache (en : bool) (ids : list string) (b : MemBucket) : process MemBucket :=
  {| self := {| Enabled := en;
                Whitelisted := {| s_arr := 0; s_len := length ids |};
                m := sync.unlocked;
                kv := b |};
     mem := {[ 0 := ids ]};
     trace := [] |}.

(** A store in which both keys have been set. *)
Definition both_set : MemBucket :=
  store_of [("enabled", Marshal true); ("whitelisted", Marshal ["alice"])].

(** A store in which [enabled] was never set and [whitelisted] holds
    bytes that are not JSON. *)
Definition garbled : MemBucket := store_of [("whitelisted", "{")].

Definition unreachable : MemBucket := {| stored := ∅; down := true |}.

End examples.


(** ** Further vocabulary *)

(** The calls to the store among the events of a trace. *)
Fixpoint store_calls (tr : list event) : list event :=
  match tr with
  | [] => []
  | EvGet key :: tr' => EvGet key :: store_calls tr'
  | EvSet key data :: tr' => EvSet key data :: store_calls tr'
  | _ :: tr' => store_calls tr'
  end.

(** The writes to the store among the events of a trace. *)
Fixpoint store_sets (tr : list event) : list event :=
  match tr with
  | [] => []
  | EvSet key data :: tr' => EvSet key data :: store_sets tr'
  | _ :: tr' => store_sets tr'
  end.

(** A value of the channel the goroutine has no case for: a nil entry, or
    a key other than the two it switches on. *)
Definition passed_over (key : option KeyValue) : Prop :=
  match key with
  | None => True
  | Some key => Key key ≠ "enabled" ∧ Key key ≠ "whitelisted"
  end.

(** Decoding the same bytes again into what the decoder left gives the
    same value and the same verdict. *)
Definition settled (T : Type) `{!Json T} : Prop :=
  ∀ (data : bytes) (dst : T), Unmarshal data (Unmarshal data dst).1 = Unmarshal data dst.

Section vocabulary_more.
Context {B : Type} `{!Bucket B} `{!Json bool} `{!Json (list string)} `{!Runtime}.

(** A value of the channel whose payload decodes whatever the destination
    holds (nil entries and other keys are not decoded at all). *)
Definition decodes_always (key : option KeyValue) : Prop :=
  match key with
  | None => True
  | Some key =>
      (Key key = "enabled" → ∀ dst : bool, (Unmarshal (Value key) dst).2 = None)
      ∧ (Key key = "whitelisted" →
         ∀ dst : list string, (Unmarshal (Value key) dst).2 = None)
  end.

(** Nothing an observer can ask for differs between two states: the flag,
    the members, the store client and the calls made to the store; and the
    second is at rest. *)
Definition unchanged (p p' : process B) : Prop :=
  Enabled (self p') = Enabled (self p)
  ∧ members p' = members p
  ∧ kv (self p') = kv (self p)
  ∧ store_calls (trace p') = store_calls (trace p)
  ∧ quiet p'.

(** Reading the store leaves its client as it was. *)
Definition reads_are_pure (b : B) : Prop := ∀ key, (kv_Get b key).1 = b.

End vocabulary_more.


(** ** Example states with the lock taken *)

Module contended.
Import fixtures examples.

(** The state [p] seen while other goroutines hold the lock as [mu] says. *)
Definition held_as (mu : sync.RWMutex) (p : process MemBucket) : process MemBucket :=
  {| self := {| Enabled := Enabled (self p);
                Whitelisted := Whitelisted (self p);
                m := mu;
                kv := kv (self p) |};
     mem := mem p;
     trace := trace p |}.

Definition written : sync.RWMutex := {| sync.writer := true; sync.readers := 0 |}.


End contended.


(** * Properties *)

(** ** Errors and scans *)

Section scans.
Context {B : Type} `{!Bucket B} `{!Json bool} `{!Json (list string)} `{!Runtime}.

Lemma slices_Index_from_None (i : nat) (l : list string) (v : string) :
  slices_Index_from i l v = None ↔ v ∉ l.
Proof.
  revert i. induction l as [|x l IH]; intros i; simpl.
  - split; [intros _; apply not_elem_of_nil | done].
  - case_decide as Hx.
    + subst. split; [done | intros Hn; exfalso; apply Hn; left].
    + rewrite IH, not_elem_of_cons. tauto.
Qed.

Lemma slices_Contains_true (l : list string) (v : string) :
  slices_Contains l v = true ↔ v ∈ l.
Proof.
  unfold slices_Contains.
  destruct (slices_Index_from 0 l v) eqn:E.
  - split; [intros _ | done].
    destruct (decide (v ∈ l)) as [|Hn]; [done |].
    apply (slices_Index_from_None 0) in Hn. congruence.
  - apply (slices_Index_from_None 0) in E. split; [done | tauto].
Qed.

Lemma slices_Contains_false (l : list string) (v : string) :
  slices_Contains l v = false ↔ v ∉ l.
Proof.
  rewrite <- slices_Contains_true. destruct (slices_Contains l v); split; congruence.
Qed.
End scans.

(** ** Slices *)

Section heap_facts.
Implicit Types (h : heap) (s : slice) (l : loc) (arr : list string).

Lemma array_at_insert h l arr : array_at (<[l := arr]> h) l = arr.
Proof. unfold array_at. by rewrite lookup_insert_eq. Qed.

Lemma array_at_insert_ne h l l' arr :
  l ≠ l' → array_at (<[l := arr]> h) l' = array_at h l'.
Proof. intros Hne. unfold array_at. by rewrite lookup_insert_ne. Qed.

Lemma view_insert h l n arr :
  view (<[l := arr]> h) {| s_arr := l; s_len := n |} = take n arr.
Proof. unfold view. simpl. by rewrite array_at_insert. Qed.

Lemma view_insert_ne h s l arr :
  l ≠ s_arr s → view (<[l := arr]> h) s = view h s.
Proof. intros Hne. unfold view. by rewrite array_at_insert_ne. Qed.

Lemma slice_ok_insert h l n arr :
  n ≤ length arr → slice_ok (<[l := arr]> h) {| s_arr := l; s_len := n |}.
Proof.
  intros Hn. split; simpl.
  - rewrite lookup_insert_eq. eauto.
  - by rewrite array_at_insert.
Qed.

Lemma slice_ok_insert_ne h s l arr :
  l ≠ s_arr s → slice_ok h s → slice_ok (<[l := arr]> h) s.
Proof.
  intros Hne [Hs Hl]. split.
  - by rewrite lookup_insert_ne.
  - by rewrite array_at_insert_ne.
Qed.

Lemma slice_ok_dom h s : slice_ok h s → s_arr s ∈ dom h.
Proof. intros [Hs _]. by apply elem_of_dom. Qed.

Lemma fresh_not_backed h s : slice_ok h s → fresh (dom h) ≠ s_arr s.
Proof.
  intros Hok Heq. apply slice_ok_dom in Hok.
  rewrite <- Heq in Hok. by apply is_fresh in Hok.
Qed.

Lemma view_length h s : slice_ok h s → length (view h s) = s_len s.
Proof. intros [_ Hl]. unfold view. rewrite length_take. lia. Qed.

(** A view depends on its own backing array only. *)
Lemma view_agree h h' s :
  h' !! s_arr s = h !! s_arr s → view h' s = view h s.
Proof. intros Heq. unfold view, array_at. by rewrite Heq. Qed.

Lemma slice_ok_agree h h' s :
  h' !! s_arr s = h !! s_arr s → slice_ok h s → slice_ok h' s.
Proof. intros Heq. unfold slice_ok, array_at. by rewrite Heq. Qed.
End heap_facts.


(** ** Running the methods from a known state *)

Section runs.
Context {B : Type} `{!Bucket B} `{!Json bool} `{!Json (list string)} `{!Runtime}.
Implicit Types (p : process B) (b : B) (h : heap) (tr : list event).
Implicit Types (wl : slice) (en : bool) (mu : sync.RWMutex).

Lemma read_slice_run s en wl mu b h tr :
  read_slice s (st en wl mu b h tr) = Done (view h s) (st en wl mu b h tr).
Proof. reflexivity. Qed.

Lemma append_run s xs en wl mu b h tr :
  slice_ok h s →
  ∃ s' h',
    append s xs (st en wl mu b h tr) = Done s' (st en wl mu b h' tr)
    ∧ view h' s' = view h s ++ xs
    ∧ slice_ok h' s'
    ∧ (s_arr s' = s_arr s ∨ s_arr s' ∉ dom h)
    ∧ (∀ l, l ≠ s_arr s → l ∈ dom h → h' !! l = h !! l).
Proof.
  intros Hok. pose proof Hok as [Hs Hl].
  exec_heap. case_decide as Hfit.
  - eexists _, _. split; [reflexivity |].
    split; [| split; [| split]].
    + rewrite view_insert. unfold view.
      rewrite app_assoc. apply take_app_length'.
      rewrite length_app, length_take. lia.
    + apply slice_ok_insert.
      rewrite !length_app, length_take, length_drop. lia.
    + by left.
    + intros l Hne _. by rewrite lookup_insert_ne.
  - eexists _, _. split; [reflexivity |].
    split; [| split; [| split]].
    + rewrite view_insert. unfold view.
      rewrite app_assoc. apply take_app_length'.
      rewrite length_app, length_take. lia.
    + apply slice_ok_insert.
      rewrite !length_app, length_take, length_replicate. unfold newcap. lia.
    + right. simpl. apply is_fresh.
    + intros l _ Hin. rewrite lookup_insert_ne; [done |].
      intros <-. by apply is_fresh in Hin.
Qed.

Lemma slices_DeleteFunc_run s del en wl mu b h tr :
  slice_ok h s →
  ∃ s' h',
    slices_DeleteFunc s del (st en wl mu b h tr) = Done s' (st en wl mu b h' tr)
    ∧ view h' s' = filter (λ x, del x = false) (view h s)
    ∧ slice_ok h' s'.
Proof.
  intros [Hs Hl]. exec_heap.
  eexists _, _. split; [reflexivity |]. split.
  - rewrite view_insert. by rewrite take_app_length.
  - apply slice_ok_insert. rewrite length_app. lia.
Qed.

Lemma make_strings_run en wl mu b h tr :
  make_strings (st en wl mu b h tr) =
  Done {| s_arr := fresh (dom h); s_len := 0 |}
       (st en wl mu b (<[fresh (dom h) := []]> h) tr).
Proof. reflexivity. Qed.

Lemma assign_slice_run s new en wl mu b h tr :
  slice_ok h s →
  ∃ s' h',
    assign_slice s new (st en wl mu b h tr) = Done s' (st en wl mu b h' tr)
    ∧ view h' s' = new
    ∧ slice_ok h' s'.
Proof.
  intros [Hs Hl]. exec_heap. case_decide as Hfit.
  - eexists _, _. split; [reflexivity |]. split.
    + rewrite view_insert. by rewrite take_app_length.
    + apply slice_ok_insert. rewrite length_app. lia.
  - eexists _, _. split; [reflexivity |]. split.
    + rewrite view_insert. by rewrite take_ge.
    + by apply slice_ok_insert.
Qed.

(** *** The save helpers and the read accessors *)

Lemma saveEnabled_run en wl b h tr :
  saveEnabled (st en wl sync.unlocked b h tr) =
  Done (wrap_set (kv_Set b "enabled" (Marshal en)).2)
       (st en wl sync.unlocked (kv_Set b "enabled" (Marshal en)).1 h
           (tr ++ [EvLock; EvSet "enabled" (Marshal en); EvUnlock])).
Proof.
  exec. destruct (kv_Set b "enabled" (Marshal en)) as [b' [e|]]; exec; by flat.
Qed.

Lemma saveWhitelisted_run en wl b h tr :
  saveWhitelisted (st en wl sync.unlocked b h tr) =
  Done (wrap_set (kv_Set b "whitelisted" (Marshal (view h wl))).2)
       (st en wl sync.unlocked (kv_Set b "whitelisted" (Marshal (view h wl))).1 h
           (tr ++ [EvLock; EvSet "whitelisted" (Marshal (view h wl)); EvUnlock])).
Proof.
  exec. rewrite read_slice_run.
  destruct (kv_Set b "whitelisted" (Marshal (view h wl))) as [b' [e|]]; exec; by flat.
Qed.

Lemma IsEnabled_run en wl b h tr :
  IsEnabled (st en wl sync.unlocked b h tr) =
  Done en (st en wl sync.unlocked b h (tr ++ [EvRLock; EvRUnlock])).
Proof. exec. by flat. Qed.

Lemma Contains_run uuid en wl b h tr :
  Contains uuid (st en wl sync.unlocked b h tr) =
  Done (slices_Contains (view h wl) uuid)
       (st en wl sync.unlocked b h (tr ++ [EvRLock; EvRUnlock])).
Proof. exec. rewrite read_slice_run. by flat. Qed.

(** *** The mutations *)

Lemma set_enabled_run (v : bool) en wl b h tr :
  (m_Lock;; set_Enabled v;; m_Unlock;; saveEnabled) (st en wl sync.unlocked b h tr) =
  Done (wrap_set (kv_Set b "enabled" (Marshal v)).2)
       (st v wl sync.unlocked (kv_Set b "enabled" (Marshal v)).1 h
           (tr ++ [EvLock; EvUnlock; EvLock; EvSet "enabled" (Marshal v); EvUnlock])).
Proof.
  exec_outer. rewrite saveEnabled_run. by flat.
Qed.

Lemma Enable_run en wl b h tr :
  Enable (st en wl sync.unlocked b h tr) =
  Done (wrap_set (kv_Set b "enabled" (Marshal true)).2)
       (st true wl sync.unlocked (kv_Set b "enabled" (Marshal true)).1 h
           (tr ++ [EvLock; EvUnlock; EvLock; EvSet "enabled" (Marshal true); EvUnlock])).
Proof. apply set_enabled_run. Qed.

Lemma Disable_run en wl b h tr :
  Disable (st en wl sync.unlocked b h tr) =
  Done (wrap_set (kv_Set b "enabled" (Marshal false)).2)
       (st false wl sync.unlocked (kv_Set b "enabled" (Marshal false)).1 h
           (tr ++ [EvLock; EvUnlock; EvLock; EvSet "enabled" (Marshal false); EvUnlock])).
Proof. apply set_enabled_run. Qed.

Lemma Add_run uuid en wl b h tr :
  slice_ok h wl →
  let data := Marshal (view h wl ++ [uuid]) in
  ∃ wl' h',
    Add uuid (st en wl sync.unlocked b h tr) =
    Done (wrap_set (kv_Set b "whitelisted" data).2)
         (st en wl' sync.unlocked (kv_Set b "whitelisted" data).1 h'
             (tr ++ [EvLock; EvUnlock; EvLock; EvSet "whitelisted" data; EvUnlock]))
    ∧ view h' wl' = view h wl ++ [uuid]
    ∧ slice_ok h' wl'.
Proof.
  intros Hok data.
  destruct (append_run wl [uuid] en wl {| sync.writer := true; sync.readers := 0 |}
              b h (tr ++ [EvLock]) Hok)
    as (wl' & h' & Hrun & Hview & Hok' & _).
  exists wl', h'. split; [| done].
  exec_outer. rewrite Hrun. exec_outer.
  rewrite saveWhitelisted_run, Hview. by flat.
Qed.

Lemma Remove_run uuid en wl b h tr :
  slice_ok h wl →
  let kept := filter (λ x, bool_decide (x = uuid) = false) (view h wl) in
  ∃ wl' h',
    Remove uuid (st en wl sync.unlocked b h tr) =
    Done (wrap_set (kv_Set b "whitelisted" (Marshal kept)).2)
         (st en wl' sync.unlocked (kv_Set b "whitelisted" (Marshal kept)).1 h'
             (tr ++ [EvLock; EvUnlock; EvLock; EvSet "whitelisted" (Marshal kept);
                     EvUnlock]))
    ∧ view h' wl' = kept
    ∧ slice_ok h' wl'.
Proof.
  intros Hok kept.
  destruct (slices_DeleteFunc_run wl (λ s, bool_decide (s = uuid)) en wl
              {| sync.writer := true; sync.readers := 0 |} b h (tr ++ [EvLock]) Hok)
    as (wl' & h' & Hrun & Hview & Hok').
  exists wl', h'. split; [| done].
  exec_outer. rewrite Hrun. exec_outer.
  rewrite saveWhitelisted_run, Hview. by flat.
Qed.

Lemma AllWhitelisted_run en wl b h tr :
  slice_ok h wl →
  ∃ copy h',
    AllWhitelisted (st en wl sync.unlocked b h tr) =
    Done copy (st en wl sync.unlocked b h' (tr ++ [EvRLock; EvRUnlock]))
    ∧ view h' copy = view h wl
    ∧ slice_ok h' copy
    ∧ (s_arr copy ∉ dom h)
    ∧ (∀ l, l ∈ dom h → h' !! l = h !! l).
Proof.
  intros Hok.
  set (l0 := fresh (dom h)). set (h0 := <[l0 := []]> h).
  assert (Hl0 : l0 ∉ dom h) by apply is_fresh.
  assert (Hok0 : slice_ok h0 {| s_arr := l0; s_len := 0 |}).
  { apply slice_ok_insert. simpl. lia. }
  destruct (append_run {| s_arr := l0; s_len := 0 |} (view h wl) en wl
              {| sync.writer := false; sync.readers := 1 |} b h0 (tr ++ [EvRLock]) Hok0)
    as (copy & h' & Hrun & Hview & Hok' & Hwhere & Hframe).
  assert (Hwl : view h0 wl = view h wl).
  { apply view_insert_ne. by apply fresh_not_backed. }
  exists copy, h'. split; [| split; [| split; [| split]]].
  - exec. rewrite make_strings_run. fold l0 h0. exec.
    rewrite read_slice_run, Hwl. exec. rewrite Hrun. exec. by flat.
  - rewrite Hview. unfold h0. by rewrite view_insert.
  - done.
  - destruct Hwhere as [-> | Hnew]; [done |].
    intros Hin. apply Hnew. unfold h0. rewrite dom_insert_L. by apply elem_of_union_r.
  - intros l Hin. simpl in Hframe.
    rewrite Hframe.
    + unfold h0. rewrite lookup_insert_ne; [done |]. intros <-. done.
    + intros ->. done.
    + unfold h0. rewrite dom_insert_L. by apply elem_of_union_r.
Qed.

End runs.


(** ** Running [Reload] and the apply loop *)

Section reload_runs.
Context {B : Type} `{!Bucket B} `{!Json bool} `{!Json (list string)} `{!Runtime}.
Implicit Types (p : process B) (b : B) (h : heap) (tr : list event).
Implicit Types (wl : slice) (en : bool) (mu : sync.RWMutex).

Lemma not_absent_unmarshal (failure : option string) :
  Is (Unwrap (wrap_unmarshal failure)) ErrKeyNotFound = false.
Proof. by destruct failure. Qed.

Lemma absent_fetch_error {T} `{!Json T} b key (dst : T) :
  Is (Unwrap (fetch_error b key dst)) ErrKeyNotFound = absent_in b key.
Proof.
  unfold fetch_error, absent_in. destruct (kv_Get b key).2 as [data|e].
  - apply not_absent_unmarshal.
  - reflexivity.
Qed.

Lemma absent_after_fetch {T} `{!Json T} b key (dst : T) :
  absent_in b key = true → after_fetch b key dst = dst.
Proof.
  unfold absent_in, after_fetch. by destruct (kv_Get b key).2.
Qed.

Lemma fetch_enabled_run en wl mu b h tr :
  GetKeyFromKV "enabled" ref_Enabled (st en wl mu b h tr) =
  Done (fetch_error b "enabled" en)
       (st (after_fetch b "enabled" en) wl mu (kv_Get b "enabled").1 h
           (tr ++ [EvGet "enabled"])).
Proof.
  unfold fetch_error, after_fetch. exec.
  destruct (kv_Get b "enabled") as [b' [data|e]]; simpl; exec; [| done].
  by destruct (Unmarshal data en) as [en' [msg|]].
Qed.

Lemma unmarshal_whitelisted_run data en wl mu b h tr :
  slice_ok h wl →
  ∃ wl' h',
    json_Unmarshal data ref_Whitelisted (st en wl mu b h tr) =
    Done (ErrJSON <$> (Unmarshal data (view h wl)).2) (st en wl' mu b h' tr)
    ∧ view h' wl' = (Unmarshal data (view h wl)).1
    ∧ slice_ok h' wl'.
Proof.
  intros Hok. exec. rewrite read_slice_run.
  destruct (Unmarshal data (view h wl)) as [new failure]. exec.
  destruct (assign_slice_run wl new en wl mu b h tr Hok)
    as (wl' & h' & Hrun & Hview & Hok').
  exists wl', h'. rewrite Hrun. by destruct failure.
Qed.

Lemma unmarshal_enabled_run data en wl mu b h tr :
  json_Unmarshal data ref_Enabled (st en wl mu b h tr) =
  Done (ErrJSON <$> (Unmarshal data en).2) (st (Unmarshal data en).1 wl mu b h tr).
Proof. exec. by destruct (Unmarshal data en) as [new [msg|]]. Qed.

Lemma fetch_whitelisted_run en wl mu b h tr :
  slice_ok h wl →
  ∃ wl' h',
    GetKeyFromKV "whitelisted" ref_Whitelisted (st en wl mu b h tr) =
    Done (fetch_error b "whitelisted" (view h wl))
         (st en wl' mu (kv_Get b "whitelisted").1 h' (tr ++ [EvGet "whitelisted"]))
    ∧ view h' wl' = after_fetch b "whitelisted" (view h wl)
    ∧ slice_ok h' wl'.
Proof.
  intros Hok. unfold fetch_error, after_fetch.
  cbv beta iota zeta delta
    [ GetKeyFromKV bucket_Get mbind M_bind mret M_ret get_self put_self set_kv emit
      self mem trace Enabled Whitelisted m kv ].
  destruct (kv_Get b "whitelisted") as [b' [data|e]]; simpl.
  - destruct (unmarshal_whitelisted_run data en wl mu b' h
                (tr ++ [EvGet "whitelisted"]) Hok)
      as (wl' & h' & Hrun & Hview & Hok').
    exists wl', h'. rewrite Hrun.
    by destruct (Unmarshal data (view h wl)) as [new [msg|]].
  - by exists wl, h.
Qed.

(** [Reload], on every path. *)
Lemma Reload_run en wl b h tr :
  slice_ok h wl →
  let b1 := (kv_Get b "enabled").1 in
  let e1 := fetch_error b "enabled" en in
  let e2 := fetch_error b1 "whitelisted" (view h wl) in
  if absent_in b "enabled" then
    ∃ wl' h',
      Reload (st en wl sync.unlocked b h tr) =
      Done (if absent_in b1 "whitelisted" then None else e2)
           (st false wl' sync.unlocked (kv_Get b1 "whitelisted").1 h'
               (tr ++ [EvLock; EvGet "enabled"; EvGet "whitelisted"; EvUnlock]))
      ∧ view h' wl' = (if absent_in b1 "whitelisted" then []
                       else after_fetch b1 "whitelisted" (view h wl))
      ∧ slice_ok h' wl'
  else
    Reload (st en wl sync.unlocked b h tr) =
    Done e1 (st (after_fetch b "enabled" en) wl sync.unlocked b1 h
                (tr ++ [EvLock; EvGet "enabled"; EvUnlock])).
Proof.
  intros Hok b1 e1 e2.
  destruct (absent_in b "enabled") eqn:Habs.
  - destruct (fetch_whitelisted_run false wl {| sync.writer := true; sync.readers := 0 |}
                b1 h ((tr ++ [EvLock]) ++ [EvGet "enabled"]) Hok)
      as (wl1 & h1 & Hrun & Hview & Hok1).
    destruct (absent_in b1 "whitelisted") eqn:Habs2.
    + eexists _, _. split; [| split].
      * exec_outer. rewrite fetch_enabled_run. cbv beta iota.
        rewrite absent_fetch_error, Habs. exec_outer.
        fold b1. rewrite Hrun. cbv beta iota.
        rewrite absent_fetch_error, Habs2.
        rewrite make_strings_run. exec_outer. by flat.
      * by rewrite view_insert.
      * apply slice_ok_insert. simpl. lia.
    + exists wl1, h1. split; [| done].
      exec_outer. rewrite fetch_enabled_run. cbv beta iota.
      rewrite absent_fetch_error, Habs. exec_outer.
      fold b1. rewrite Hrun. cbv beta iota.
      rewrite absent_fetch_error, Habs2. fold e2.
      destruct e2; exec_outer; by flat.
  - exec_outer. rewrite fetch_enabled_run. cbv beta iota.
    rewrite absent_fetch_error, Habs. exec_outer. by flat.
Qed.

(** One change of the [enabled] key. *)
Lemma apply_enabled_run data en wl b h tr :
  apply_change (Some (mkKeyValue "enabled" data)) (st en wl sync.unlocked b h tr) =
  let tr' := tr ++ [EvLog ("Enabled key changed: " +:+ data); EvLock; EvUnlock] in
  match (Unmarshal data en).2 with
  | None => Done tt (st (Unmarshal data en).1 wl sync.unlocked b h tr')
  | Some _ =>
      Fatal "sync: Unlock of unlocked RWMutex"
            (st (Unmarshal data en).1 wl sync.unlocked b h
                (tr' ++ [EvLog "Failed to unmarshal enabled key"]))
  end.
Proof.
  exec_outer. cbv beta iota delta [Key Value].
  destruct (decide ("enabled" = "enabled")) as [_|?]; [| done].
  rewrite unmarshal_enabled_run.
  destruct (Unmarshal data en) as [new [msg|]]; simpl; exec_outer; by flat.
Qed.

(** One change of the [whitelisted] key. *)
Lemma apply_whitelisted_run data en wl b h tr :
  slice_ok h wl →
  let tr' := tr ++ [EvLog ("Whitelisted key changed: " +:+ data); EvLock; EvUnlock] in
  ∃ wl' h',
    apply_change (Some (mkKeyValue "whitelisted" data)) (st en wl sync.unlocked b h tr) =
    match (Unmarshal data (view h wl)).2 with
    | None => Done tt (st en wl' sync.unlocked b h' tr')
    | Some _ =>
        Fatal "sync: Unlock of unlocked RWMutex"
              (st en wl' sync.unlocked b h'
                  (tr' ++ [EvLog "Failed to unmarshal whitelisted key"]))
    end
    ∧ view h' wl' = (Unmarshal data (view h wl)).1
    ∧ slice_ok h' wl'.
Proof.
  intros Hok tr'.
  destruct (unmarshal_whitelisted_run data en wl
              {| sync.writer := true; sync.readers := 0 |} b h
              ((tr ++ [EvLog ("Whitelisted key changed: " +:+ data)]) ++ [EvLock]) Hok)
    as (wl' & h' & Hrun & Hview & Hok').
  exists wl', h'. split; [| done].
  exec_outer. cbv beta iota delta [Key Value].
  destruct (decide ("whitelisted" = "enabled")) as [?|_]; [done |].
  destruct (decide ("whitelisted" = "whitelisted")) as [_|?]; [| done].
  rewrite Hrun. subst tr'.
  destruct (Unmarshal data (view h wl)) as [new [msg|]]; simpl; exec_outer; by flat.
Qed.

(** Nil entries and other keys are passed over. *)
Lemma apply_nil_run p : apply_change None p = Done tt p.
Proof. reflexivity. Qed.

Lemma apply_other_run key p :
  Key key ≠ "enabled" → Key key ≠ "whitelisted" → apply_change (Some key) p = Done tt p.
Proof.
  intros H1 H2. unfold apply_change.
  destruct (decide (Key key = "enabled")); [done |].
  by destruct (decide (Key key = "whitelisted")).
Qed.

Lemma apply_loop_cons key rest p :
  apply_loop (key :: rest) p =
  match apply_change key p with
  | Done _ p' => apply_loop rest p'
  | Fatal msg p' => Fatal msg p'
  | Blocked p' => Blocked p'
  end.
Proof. reflexivity. Qed.

End reload_runs.


(** ** The cache between calls *)

Section quiet_facts.
Context {B : Type} `{!Bucket B} `{!Json bool} `{!Json (list string)} `{!Runtime}.
Implicit Types (p : process B) (b : B) (h : heap) (tr : list event).

Lemma quiet_st en wl b h tr : slice_ok h wl → quiet (st en wl sync.unlocked b h tr).
Proof. by split. Qed.

Lemma quiet_inv p :
  quiet p →
  ∃ en wl b h tr, p = st en wl sync.unlocked b h tr ∧ slice_ok h wl.
Proof.
  destruct p as [[en wl mu b] h tr]. intros [Hok Hmu]. simpl in *. subst mu.
  by exists en, wl, b, h, tr.
Qed.

(** [NewKVWhitelist] hands out a cache at rest, disabled and empty. *)
Lemma quiet_fresh_process b : quiet (fresh_process b).
Proof.
  apply quiet_st. apply (slice_ok_insert ∅ (fresh (dom (∅ : heap))) 0 []). simpl. lia.
Qed.

Lemma NewKVWhitelist_ok b :
  NewKVWhitelist (inl b) None = inl (fresh_process b)
  ∧ Enabled (self (fresh_process b)) = false
  ∧ members (fresh_process b) = [].
Proof.
  split; [done |]. split; [done |].
  apply (view_insert ∅ (fresh (dom (∅ : heap))) 0 []).
Qed.

End quiet_facts.

(** ** The decoders of the examples *)

Section fixture_facts.
Import fixtures examples.

Lemma quiet_cache en ids b : quiet (cache en ids b).
Proof.
  apply quiet_st. split; simpl.
  - rewrite lookup_singleton_eq. eauto.
  - unfold array_at. by rewrite lookup_singleton_eq.
Qed.

End fixture_facts.

(** * Properties of the cache *)

Section apply_loop_props.
Context {B : Type} `{!Bucket B} `{!Json bool} `{!Json (list string)} `{!Runtime}.
Implicit Types (p : process B) (b : B) (h : heap) (tr : list event).

(** C1 (the code departs from it).  When the [enabled] key is in the store
    and decodes, [Reload] returns success right after that fetch: the lock
    is released, the [whitelisted] key is never asked for, and the members
    are those the cache held before, whatever the store holds. *)
Theorem Reload_present_enabled_skips_whitelisted p :
  quiet p →
  fetch_error (kv (self p)) "enabled" (Enabled (self p)) = None →
  ∃ p',
    Reload p = Done None p'
    ∧ trace p' = trace p ++ [EvLock; EvGet "enabled"; EvUnlock]
    ∧ members p' = members p.
Proof.
  intros Hq Hfetch.
  destruct (quiet_inv _ Hq) as (en & wl & b & h & tr & -> & Hok).
  simpl in Hfetch.
  assert (Hpresent : absent_in b "enabled" = false).
  { by rewrite <- (absent_fetch_error b "enabled" en), Hfetch. }
  pose proof (Reload_run en wl b h tr Hok) as Hrun. cbv zeta in Hrun.
  rewrite Hpresent, Hfetch in Hrun.
  eexists. split; [exact Hrun |]. done.
Qed.

(** C2 (the code departs from it).  A [whitelisted] change whose payload
    does not decode ends the apply loop with the runtime's fatal error for
    unlocking a free mutex; nothing that follows on the channel is
    applied. *)
Theorem apply_loop_dies_on_undecodable_whitelisted p data rest :
  quiet p →
  (Unmarshal data (members p)).2 ≠ None →
  ∃ p',
    apply_loop (Some (mkKeyValue "whitelisted" data) :: rest) p =
    Fatal "sync: Unlock of unlocked RWMutex" p'
    ∧ members p' = (Unmarshal data (members p)).1.
Proof.
  intros Hq Hfail.
  destruct (quiet_inv _ Hq) as (en & wl & b & h & tr & -> & Hok).
  unfold members in *.
  cbv beta iota delta [self mem Whitelisted] in *.
  destruct (apply_whitelisted_run data en wl b h tr Hok)
    as (wl' & h' & Hrun & Hview & _).
  cbv zeta in Hrun. rewrite apply_loop_cons, Hrun.
  destruct (Unmarshal data (view h wl)).2 as [msg|]; [| done].
  eexists. split; [reflexivity | done].
Qed.

(** C3 (the code departs from it).  On the decode-failure path of either
    key the lock taken once is unlocked twice: the first [Unlock] releases
    it, and the second finds the mutex free and is fatal. *)
Theorem decode_failure_unlocks_twice p data :
  quiet p →
  ((Unmarshal data (Enabled (self p))).2 ≠ None →
   ∃ p',
     apply_change (Some (mkKeyValue "enabled" data)) p =
     Fatal "sync: Unlock of unlocked RWMutex" p'
     ∧ trace p' = trace p ++ [EvLog ("Enabled key changed: " +:+ data); EvLock;
                              EvUnlock; EvLog "Failed to unmarshal enabled key"]
     ∧ m (self p') = sync.unlocked)
  ∧ ((Unmarshal data (members p)).2 ≠ None →
     ∃ p',
       apply_change (Some (mkKeyValue "whitelisted" data)) p =
       Fatal "sync: Unlock of unlocked RWMutex" p'
       ∧ trace p' = trace p ++ [EvLog ("Whitelisted key changed: " +:+ data); EvLock;
                                EvUnlock; EvLog "Failed to unmarshal whitelisted key"]
       ∧ m (self p') = sync.unlocked).
Proof.
  intros Hq.
  destruct (quiet_inv _ Hq) as (en & wl & b & h & tr & -> & Hok).
  unfold members.
  cbv beta iota delta [self mem trace Enabled Whitelisted].
  split; intros Hfail.
  - rewrite apply_enabled_run. cbv zeta.
    destruct (Unmarshal data en).2 as [msg|]; [| done].
    eexists. split; [reflexivity |]. simpl. by rewrite <- app_assoc.
  - destruct (apply_whitelisted_run data en wl b h tr Hok)
      as (wl' & h' & Hrun & _). cbv zeta in Hrun.
    destruct (Unmarshal data (view h wl)).2 as [msg|]; [| done].
    eexists. split; [exact Hrun |]. simpl. by rewrite <- app_assoc.
Qed.

(** On the other path the lock is taken and released once. *)
Lemma decode_success_unlocks_once p data :
  quiet p →
  (Unmarshal data (Enabled (self p))).2 = None →
  ∃ p',
    apply_change (Some (mkKeyValue "enabled" data)) p = Done tt p'
    ∧ trace p' = trace p ++ [EvLog ("Enabled key changed: " +:+ data); EvLock; EvUnlock]
    ∧ Enabled (self p') = (Unmarshal data (Enabled (self p))).1
    ∧ quiet p'.
Proof.
  intros Hq Hfine.
  destruct (quiet_inv _ Hq) as (en & wl & b & h & tr & -> & Hok).
  cbv beta iota delta [self mem trace Enabled Whitelisted] in *.
  rewrite apply_enabled_run. cbv zeta. rewrite Hfine.
  eexists. split; [reflexivity |]. split; [done |]. split; [done |].
  by apply quiet_st.
Qed.

End apply_loop_props.


Section mutation_props.
Context {B : Type} `{!Bucket B} `{!Json bool} `{!Json (list string)} `{!Runtime}.
Implicit Types (p : process B) (b : B) (h : heap) (tr : list event).

Lemma kept_filter (id : string) (l : list string) :
  filter (λ x, bool_decide (x = id) = false) l = filter (λ x, x ≠ id) l.
Proof. apply list_filter_iff. intros x. by rewrite bool_decide_eq_false. Qed.

(** The set-key call of a write-through is issued with the lock held. *)
Lemma write_through_sets_locked key data :
  sets_unlocked false (write_through key data) = false.
Proof. reflexivity. Qed.

(** C4, as amended.  Each mutation releases the lock it took for the
    update in memory and then calls its save helper, which takes the
    exclusive lock again, issues the set-key call while holding it, and
    releases it on return. *)
Theorem mutations_write_through p :
  quiet p →
  (∃ err p', Enable p = Done err p'
     ∧ trace p' = trace p ++ write_through "enabled" (Marshal true))
  ∧ (∃ err p', Disable p = Done err p'
       ∧ trace p' = trace p ++ write_through "enabled" (Marshal false))
  ∧ (∀ id, ∃ err p', Add id p = Done err p'
       ∧ trace p' = trace p ++ write_through "whitelisted" (Marshal (members p ++ [id])))
  ∧ (∀ id, ∃ err p', Remove id p = Done err p'
       ∧ trace p' = trace p
                    ++ write_through "whitelisted"
                         (Marshal (filter (λ x, x ≠ id) (members p)))).
Proof.
  intros Hq.
  destruct (quiet_inv _ Hq) as (en & wl & b & h & tr & -> & Hok).
  unfold members, write_through.
  cbv beta iota delta [self mem trace Whitelisted].
  split; [| split; [| split]].
  - rewrite Enable_run. by eexists _, _.
  - rewrite Disable_run. by eexists _, _.
  - intros id. destruct (Add_run id en wl b h tr Hok) as (wl' & h' & Hrun & _).
    cbv zeta in Hrun. rewrite Hrun. by eexists _, _.
  - intros id. destruct (Remove_run id en wl b h tr Hok) as (wl' & h' & Hrun & _).
    cbv zeta in Hrun. rewrite Hrun, kept_filter. by eexists _, _.
Qed.

(** C7.  [Remove] drops every occurrence of the identifier, whatever the
    store answers, and a [Contains] right after it says no. *)
Theorem Remove_then_Contains p id :
  quiet p →
  ∃ err p',
    Remove id p = Done err p'
    ∧ members p' = filter (λ x, x ≠ id) (members p)
    ∧ (id ∉ members p')
    ∧ ∃ p'', Contains id p' = Done false p''.
Proof.
  intros Hq.
  destruct (quiet_inv _ Hq) as (en & wl & b & h & tr & -> & Hok).
  unfold members.
  cbv beta iota delta [self mem Whitelisted].
  destruct (Remove_run id en wl b h tr Hok) as (wl' & h' & Hrun & Hview & Hok').
  cbv zeta in Hrun. rewrite kept_filter in Hview.
  assert (Hgone : id ∉ view h' wl').
  { rewrite Hview, list_elem_of_filter. tauto. }
  eexists _, _. split; [exact Hrun |].
  cbv beta iota delta [self mem Whitelisted].
  split; [done |]. split; [done |].
  rewrite Contains_run. apply slices_Contains_false in Hgone. rewrite Hgone.
  by eexists.
Qed.

Lemma Add_each_run ids p :
  quiet p →
  ∃ errs p',
    Add_each ids p = Done errs p' ∧ quiet p' ∧ members p' = members p ++ ids.
Proof.
  revert p. induction ids as [|id ids IH]; intros p Hq.
  - exists [], p. by rewrite app_nil_r.
  - destruct (quiet_inv _ Hq) as (en & wl & b & h & tr & -> & Hok).
    destruct (Add_run id en wl b h tr Hok) as (wl' & h' & Hrun & Hview & Hok').
    cbv zeta in Hrun.
    match type of Hrun with
    | _ = Done _ ?q => destruct (IH q) as (errs & p' & Hrest & Hq' & Hm)
    end.
    { by apply quiet_st. }
    eexists (_ :: errs), p'. split; [| split; [done |]].
    + cbn [Add_each]. unfold mbind, M_bind at 1. rewrite Hrun.
      unfold mbind, M_bind at 1. by rewrite Hrest.
    + rewrite Hm. unfold members. cbv beta iota delta [self mem Whitelisted].
      by rewrite Hview, <- app_assoc.
Qed.

(** C8.  After a run of [Add] calls the members are the earlier ones
    followed by every added identifier, in order and with repetitions, and
    [Contains] says yes for each of them. *)
Theorem Add_each_then_Contains ids p :
  quiet p →
  ∃ errs p',
    Add_each ids p = Done errs p'
    ∧ members p' = members p ++ ids
    ∧ ∀ id, id ∈ ids → ∃ p'', Contains id p' = Done true p''.
Proof.
  intros Hq. destruct (Add_each_run ids p Hq) as (errs & p' & Hrun & Hq' & Hm).
  exists errs, p'. split; [done |]. split; [done |].
  intros id Hin.
  destruct (quiet_inv _ Hq') as (en & wl & b & h & tr & -> & Hok).
  unfold members in Hm.
  cbv beta iota delta [self mem Whitelisted] in Hm.
  rewrite Contains_run.
  assert (Hhas : slices_Contains (view h wl) id = true).
  { apply slices_Contains_true. rewrite Hm. apply elem_of_app. by right. }
  rewrite Hhas. by eexists.
Qed.

(** C9.  [AllWhitelisted] hands out a slice over an array of its own: it
    holds the members, and whatever is later written through it, or
    allocated, leaves the members of the cache and the answers of
    [Contains] as they were. *)
Theorem AllWhitelisted_is_a_copy p :
  quiet p →
  ∃ copy p',
    AllWhitelisted p = Done copy p'
    ∧ view (mem p') copy = members p
    ∧ members p' = members p
    ∧ ∀ h', (∀ l, l ≠ s_arr copy → l ∈ dom (mem p') → h' !! l = mem p' !! l) →
        members (with_mem p' h') = members p
        ∧ ∀ id, ∃ p'',
            Contains id (with_mem p' h') = Done (slices_Contains (members p) id) p''.
Proof.
  intros Hq.
  destruct (quiet_inv _ Hq) as (en & wl & b & h & tr & -> & Hok).
  unfold members, with_mem.
  destruct (AllWhitelisted_run en wl b h tr Hok)
    as (copy & h1 & Hrun & Hview & Hok1 & Hnew & Hframe).
  exists copy. eexists. split; [exact Hrun |].
  cbv beta iota delta [self mem trace Whitelisted].
  pose proof (slice_ok_dom _ _ Hok) as Hdom.
  assert (Hwl1 : h1 !! s_arr wl = h !! s_arr wl) by by apply Hframe.
  split; [done |]. split; [by apply view_agree |].
  intros h2 Hsame.
  assert (Hwl2 : view h2 wl = view h wl).
  { apply view_agree. rewrite <- Hwl1. apply Hsame.
    - intros Heq. apply Hnew. by rewrite <- Heq.
    - apply elem_of_dom. rewrite Hwl1. by apply elem_of_dom. }
  split; [done |]. intros id. rewrite Contains_run, Hwl2. by eexists.
Qed.

(** Every method returns when called on a cache at rest, and leaves it at
    rest: the states between calls are the ones the statements speak of. *)
Lemma methods_return_at_rest p :
  quiet p →
  (∃ err p', Enable p = Done err p' ∧ quiet p')
  ∧ (∃ err p', Disable p = Done err p' ∧ quiet p')
  ∧ (∀ id, ∃ err p', Add id p = Done err p' ∧ quiet p')
  ∧ (∀ id, ∃ err p', Remove id p = Done err p' ∧ quiet p')
  ∧ (∀ id, ∃ found p', Contains id p = Done found p' ∧ quiet p')
  ∧ (∃ en p', IsEnabled p = Done en p' ∧ quiet p')
  ∧ (∃ copy p', AllWhitelisted p = Done copy p' ∧ quiet p').
Proof.
  intros Hq.
  destruct (quiet_inv _ Hq) as (en & wl & b & h & tr & -> & Hok).
  repeat split.
  - rewrite Enable_run. eexists _, _. split; [done |]. by apply quiet_st.
  - rewrite Disable_run. eexists _, _. split; [done |]. by apply quiet_st.
  - intros id. destruct (Add_run id en wl b h tr Hok) as (wl' & h' & Hrun & _ & Hok').
    cbv zeta in Hrun. rewrite Hrun. eexists _, _. split; [done |]. by apply quiet_st.
  - intros id. destruct (Remove_run id en wl b h tr Hok) as (wl' & h' & Hrun & _ & Hok').
    cbv zeta in Hrun. rewrite Hrun. eexists _, _. split; [done |]. by apply quiet_st.
  - intros id. rewrite Contains_run. eexists _, _. split; [done |]. by apply quiet_st.
  - rewrite IsEnabled_run. eexists _, _. split; [done |]. by apply quiet_st.
  - destruct (AllWhitelisted_run en wl b h tr Hok)
      as (copy & h' & Hrun & _ & _ & _ & Hframe).
    rewrite Hrun. eexists _, _. split; [done |]. apply quiet_st.
    apply (slice_ok_agree h); [| done]. apply Hframe. by apply slice_ok_dom.
Qed.

(** C10.  [Enable] and [Disable] set the flag in memory before they
    persist it, so whatever the store answers, and that answer is what they
    return, [IsEnabled] afterwards gives the new value. *)
Theorem Enable_Disable_commit_before_persist p :
  quiet p →
  (∃ p',
     Enable p = Done (wrap_set (kv_Set (kv (self p)) "enabled" (Marshal true)).2) p'
     ∧ trace p' = trace p ++ write_through "enabled" (Marshal true)
     ∧ ∃ p'', IsEnabled p' = Done true p'')
  ∧ (∃ p',
       Disable p = Done (wrap_set (kv_Set (kv (self p)) "enabled" (Marshal false)).2) p'
       ∧ trace p' = trace p ++ write_through "enabled" (Marshal false)
       ∧ ∃ p'', IsEnabled p' = Done false p'').
Proof.
  intros Hq.
  destruct (quiet_inv _ Hq) as (en & wl & b & h & tr & -> & Hok).
  cbv beta iota delta [self trace kv]. split.
  - rewrite Enable_run. eexists. split; [reflexivity |]. split; [done |].
    rewrite IsEnabled_run. by eexists.
  - rewrite Disable_run. eexists. split; [reflexivity |]. split; [done |].
    rewrite IsEnabled_run. by eexists.
Qed.

End mutation_props.


Section reload_props.
Context {B : Type} `{!Bucket B} `{!Json bool} `{!Json (list string)} `{!Runtime}.
Implicit Types (p : process B) (b : B) (h : heap) (tr : list event).

(** [Reload] always returns, with the error read off the store, and leaves
    the cache at rest. *)
Lemma Reload_returns p :
  quiet p → ∃ p', Reload p = Done (Reload_error p) p' ∧ quiet p'.
Proof.
  intros Hq.
  destruct (quiet_inv _ Hq) as (en & wl & b & h & tr & -> & Hok).
  unfold Reload_error, members.
  cbv beta iota zeta delta [self mem Enabled Whitelisted kv].
  pose proof (Reload_run en wl b h tr Hok) as Hrun. cbv zeta in Hrun.
  destruct (absent_in b "enabled").
  - destruct Hrun as (wl' & h' & Hrun & _ & Hok').
    eexists. split; [exact Hrun |]. by apply quiet_st.
  - eexists. split; [exact Hrun |]. by apply quiet_st.
Qed.

(** The part of the reload that does reach the [whitelisted] key: when
    [enabled] is reported as never set, the members become what the fetch
    leaves in them, or empty when that key was never set either. *)
Lemma Reload_refreshes_members p :
  quiet p →
  absent_in (kv (self p)) "enabled" = true →
  let b1 := (kv_Get (kv (self p)) "enabled").1 in
  ∃ p',
    Reload p = Done (Reload_error p) p'
    ∧ trace p' = trace p ++ [EvLock; EvGet "enabled"; EvGet "whitelisted"; EvUnlock]
    ∧ members p' = (if absent_in b1 "whitelisted" then []
                    else after_fetch b1 "whitelisted" (members p)).
Proof.
  intros Hq Habs.
  destruct (quiet_inv _ Hq) as (en & wl & b & h & tr & -> & Hok).
  unfold Reload_error, members.
  cbv beta iota zeta delta [self mem trace Enabled Whitelisted kv] in *.
  pose proof (Reload_run en wl b h tr Hok) as Hrun. cbv zeta in Hrun.
  rewrite Habs in *. destruct Hrun as (wl' & h' & Hrun & Hview & _).
  eexists. split; [exact Hrun |]. done.
Qed.


(** C6, as amended.  When the store reports [enabled] as never set,
    [Reload] resets the flag, so [IsEnabled] afterwards gives false; what
    it returns is decided by the [whitelisted] fetch: success when that key
    is reported as never set or is fetched and decoded, and the error of
    that fetch otherwise. *)
Theorem Reload_absent_enabled p :
  quiet p →
  absent_in (kv (self p)) "enabled" = true →
  let b1 := (kv_Get (kv (self p)) "enabled").1 in
  ∃ p',
    Reload p = Done (if absent_in b1 "whitelisted" then None
                     else fetch_error b1 "whitelisted" (members p)) p'
    ∧ ∃ p'', IsEnabled p' = Done false p''.
Proof.
  intros Hq Habs.
  destruct (quiet_inv _ Hq) as (en & wl & b & h & tr & -> & Hok).
  unfold members.
  cbv beta iota zeta delta [self mem Enabled Whitelisted kv] in *.
  pose proof (Reload_run en wl b h tr Hok) as Hrun. cbv zeta in Hrun.
  rewrite Habs in Hrun. destruct Hrun as (wl' & h' & Hrun & _).
  eexists. split; [exact Hrun |]. rewrite IsEnabled_run. by eexists.
Qed.

End reload_props.

(** * The properties on the example states *)

Section on_examples.
Import fixtures examples.

(** C1 at a store that holds both keys: the reload of a new cache succeeds
    and the cache still has no member, though the store lists one. *)
Lemma Reload_present_enabled_skips_whitelisted_witness :
  quiet (fresh_process both_set)
  ∧ fetch_error both_set "enabled" false = None
  ∧ (kv_Get both_set "whitelisted").2 = inl (Marshal ["alice"])
  ∧ ∃ p',
      Reload (fresh_process both_set) = Done None p'
      ∧ trace p' = [] ++ [EvLock; EvGet "enabled"; EvUnlock]
      ∧ members p' = members (fresh_process both_set).
Proof.
  split; [apply quiet_fresh_process |].
  split; [vm_compute; reflexivity |].
  split; [vm_compute; reflexivity |].
  apply (Reload_present_enabled_skips_whitelisted (fresh_process both_set)).
  - apply quiet_fresh_process.
  - vm_compute. reflexivity.
Defined.

(** C2 at a payload that is not JSON, followed by a well-formed change. *)
Lemma apply_loop_dies_on_undecodable_whitelisted_witness :
  quiet (cache false ["bob"] (store_of []))
  ∧ (Unmarshal "{" (members (cache false ["bob"] (store_of [])))).2 ≠ None
  ∧ ∃ p',
      apply_loop [Some (mkKeyValue "whitelisted" "{");
                  Some (mkKeyValue "whitelisted" (Marshal ["alice"]))]
                 (cache false ["bob"] (store_of [])) =
      Fatal "sync: Unlock of unlocked RWMutex" p'
      ∧ members p' = (Unmarshal "{" (members (cache false ["bob"] (store_of [])))).1.
Proof.
  split; [apply quiet_cache |].
  split; [vm_compute; discriminate |].
  apply (apply_loop_dies_on_undecodable_whitelisted (cache false ["bob"] (store_of []))).
  - apply quiet_cache.
  - vm_compute. discriminate.
Defined.

(** C3 at a payload that is not JSON, for both keys. *)
Lemma decode_failure_unlocks_twice_witness :
  quiet (fresh_process (store_of []))
  ∧ (∃ p',
       apply_change (Some (mkKeyValue "enabled" "{")) (fresh_process (store_of [])) =
       Fatal "sync: Unlock of unlocked RWMutex" p'
       ∧ trace p' = [] ++ [EvLog ("Enabled key changed: " +:+ "{"); EvLock; EvUnlock;
                           EvLog "Failed to unmarshal enabled key"]
       ∧ m (self p') = sync.unlocked)
  ∧ (∃ p',
       apply_change (Some (mkKeyValue "whitelisted" "{")) (fresh_process (store_of [])) =
       Fatal "sync: Unlock of unlocked RWMutex" p'
       ∧ trace p' = [] ++ [EvLog ("Whitelisted key changed: " +:+ "{"); EvLock;
                           EvUnlock; EvLog "Failed to unmarshal whitelisted key"]
       ∧ m (self p') = sync.unlocked).
Proof.
  split; [apply quiet_fresh_process |].
  destruct (decode_failure_unlocks_twice (fresh_process (store_of [])) "{"
              (quiet_fresh_process _)) as [Hen Hwl].
  split.
  - apply Hen. vm_compute. discriminate.
  - apply Hwl. vm_compute. discriminate.
Defined.

(** C4 as stated fails at [Enable] on a new cache: the set-key call is in
    the trace between the second [Lock] and its [Unlock]. *)
Lemma Enable_sets_under_lock :
  ∃ err p',
    Enable (fresh_process both_set) = Done err p'
    ∧ trace p' = [EvLock; EvUnlock; EvLock; EvSet "enabled" "true"; EvUnlock]
    ∧ sets_unlocked false (trace p') = false.
Proof.
  eexists _, _. split; [vm_compute; reflexivity |].
  split; vm_compute; reflexivity.
Defined.

(** C4, as amended, at a cache with one member: the events of [Enable] and of
    [Add]. *)
Lemma mutations_write_through_witness :
  quiet (cache false ["alice"] both_set)
  ∧ (∃ err p', Enable (cache false ["alice"] both_set) = Done err p'
       ∧ trace p' = [] ++ write_through "enabled" (Marshal true))
  ∧ (∀ id, ∃ err p', Add id (cache false ["alice"] both_set) = Done err p'
       ∧ trace p' = [] ++ write_through "whitelisted" (Marshal (["alice"] ++ [id]))).
Proof.
  split; [apply quiet_cache |].
  destruct (mutations_write_through (cache false ["alice"] both_set) (quiet_cache _ _ _))
    as (Hen & _ & Hadd & _).
  split; [exact Hen | exact Hadd].
Defined.



(** C6 as stated fails at the same store: [enabled] was never set, and the
    reload of a new cache returns an error. *)
Lemma absent_enabled_reload_may_fail :
  (kv_Get garbled "enabled").2 = inr ErrKeyNotFound
  ∧ observe (Reload (fresh_process garbled)) =
    Finished (Some (Wrap "unmarshal" (ErrJSON "invalid character")))
             false []
             [EvLock; EvGet "enabled"; EvGet "whitelisted"; EvUnlock].
Proof. split; vm_compute; reflexivity. Defined.

(** C6, as amended, at a store whose [whitelisted] key decodes: the reload
    succeeds and the flag, true before, reads false. *)
Lemma Reload_absent_enabled_witness :
  quiet (cache true ["alice"] (store_of [("whitelisted", Marshal ["bob"])]))
  ∧ absent_in (store_of [("whitelisted", Marshal ["bob"])]) "enabled" = true
  ∧ ∃ p',
      Reload (cache true ["alice"] (store_of [("whitelisted", Marshal ["bob"])])) =
      Done None p'
      ∧ ∃ p'', IsEnabled p' = Done false p''.
Proof.
  split; [apply quiet_cache |].
  split; [vm_compute; reflexivity |].
  destruct (Reload_absent_enabled
              (cache true ["alice"] (store_of [("whitelisted", Marshal ["bob"])])))
    as (p' & Hrun & Hen).
  - apply quiet_cache.
  - vm_compute. reflexivity.
  - exists p'. split; [| exact Hen].
    rewrite Hrun. by vm_compute.
Defined.

(** C7 at a cache that holds the identifier twice, over a store that is
    down. *)
Lemma Remove_then_Contains_witness :
  quiet (cache false ["alice"; "bob"; "alice"] unreachable)
  ∧ ∃ err p',
      Remove "alice" (cache false ["alice"; "bob"; "alice"] unreachable) = Done err p'
      ∧ members p' = filter (λ x, x ≠ "alice")
                       (members (cache false ["alice"; "bob"; "alice"] unreachable))
      ∧ ("alice" ∉ members p')
      ∧ ∃ p'', Contains "alice" p' = Done false p''.
Proof.
  split; [apply quiet_cache |].
  apply (Remove_then_Contains (cache false ["alice"; "bob"; "alice"] unreachable) "alice").
  apply quiet_cache.
Defined.

(** C8 at three additions to a new cache, one identifier added twice. *)
Lemma Add_each_then_Contains_witness :
  quiet (fresh_process (store_of []))
  ∧ ∃ errs p',
      Add_each ["alice"; "alice"; "bob"] (fresh_process (store_of [])) = Done errs p'
      ∧ members p' = members (fresh_process (store_of [])) ++ ["alice"; "alice"; "bob"]
      ∧ ∀ id, id ∈ ["alice"; "alice"; "bob"] → ∃ p'', Contains id p' = Done true p''.
Proof.
  split; [apply quiet_fresh_process |].
  apply (Add_each_then_Contains ["alice"; "alice"; "bob"] (fresh_process (store_of []))).
  apply quiet_fresh_process.
Defined.

(** C9 at a cache with two members. *)
Lemma AllWhitelisted_is_a_copy_witness :
  quiet (cache true ["alice"; "bob"] both_set)
  ∧ ∃ copy p',
      AllWhitelisted (cache true ["alice"; "bob"] both_set) = Done copy p'
      ∧ view (mem p') copy = members (cache true ["alice"; "bob"] both_set)
      ∧ members p' = members (cache true ["alice"; "bob"] both_set)
      ∧ ∀ h', (∀ l, l ≠ s_arr copy → l ∈ dom (mem p') → h' !! l = mem p' !! l) →
          members (with_mem p' h') = members (cache true ["alice"; "bob"] both_set)
          ∧ ∀ id, ∃ p'',
              Contains id (with_mem p' h') =
              Done (slices_Contains (members (cache true ["alice"; "bob"] both_set)) id) p''.
Proof.
  split; [apply quiet_cache |].
  apply (AllWhitelisted_is_a_copy (cache true ["alice"; "bob"] both_set)).
  apply quiet_cache.
Defined.

(** C10 at a store that is down: the persist fails and the flag reads true. *)
Lemma Enable_Disable_commit_before_persist_witness :
  quiet (fresh_process unreachable)
  ∧ (kv_Set unreachable "enabled" (Marshal true)).2 = Some (ErrStore "unavailable")
  ∧ ∃ p',
      Enable (fresh_process unreachable) =
      Done (wrap_set (kv_Set (kv (self (fresh_process unreachable))) "enabled"
                        (Marshal true)).2) p'
      ∧ trace p' = trace (fresh_process unreachable) ++ write_through "enabled" (Marshal true)
      ∧ ∃ p'', IsEnabled p' = Done true p''.
Proof.
  split; [apply quiet_fresh_process |].
  split; [reflexivity |].
  destruct (Enable_Disable_commit_before_persist (fresh_process unreachable)
              (quiet_fresh_process _)) as [Hen _].
  exact Hen.
Defined.

End on_examples.

(** * Further properties of the cache *)

(** ** What the methods leave alone in the heap and in the trace *)

Section frames.
Context {B : Type} `{!Bucket B} `{!Json bool} `{!Json (list string)} `{!Runtime}.
Implicit Types (p : process B) (b : B) (h : heap) (tr : list event).
Implicit Types (wl : slice) (en : bool) (mu : sync.RWMutex).

Lemma store_calls_app tr1 tr2 :
  store_calls (tr1 ++ tr2) = store_calls tr1 ++ store_calls tr2.
Proof.
  induction tr1 as [|ev tr1 IH]; [done |].
  destruct ev; simpl; by rewrite ?IH.
Qed.

Lemma store_sets_app tr1 tr2 :
  store_sets (tr1 ++ tr2) = store_sets tr1 ++ store_sets tr2.
Proof.
  induction tr1 as [|ev tr1 IH]; [done |].
  destruct ev; simpl; by rewrite ?IH.
Qed.

Lemma slices_DeleteFunc_frame s del en wl mu b h tr s' p' :
  slices_DeleteFunc s del (st en wl mu b h tr) = Done s' p' →
  ∀ l, l ≠ s_arr s → mem p' !! l = h !! l.
Proof.
  exec_heap. intros [= _ <-] l Hne. simpl. by rewrite lookup_insert_ne.
Qed.

Lemma assign_slice_frame s new en wl mu b h tr s' p' :
  assign_slice s new (st en wl mu b h tr) = Done s' p' →
  ∀ l, l ≠ s_arr s → l ∈ dom h → mem p' !! l = h !! l.
Proof.
  exec_heap. case_decide; intros [= _ <-] l Hne Hin; simpl.
  - by rewrite lookup_insert_ne.
  - rewrite lookup_insert_ne; [done |]. intros <-. by apply is_fresh in Hin.
Qed.

(** [Add] writes to the backing array of the members or to a new one. *)
Lemma Add_frame uuid en wl b h tr err p' :
  slice_ok h wl →
  Add uuid (st en wl sync.unlocked b h tr) = Done err p' →
  ∀ l, l ≠ s_arr wl → l ∈ dom h → mem p' !! l = h !! l.
Proof.
  intros Hok Hrun l Hne Hin.
  destruct (append_run wl [uuid] en wl {| sync.writer := true; sync.readers := 0 |}
              b h (tr ++ [EvLock]) Hok)
    as (wl' & h' & Happ & _ & _ & _ & Hframe).
  revert Hrun. exec_outer. rewrite Happ. exec_outer. rewrite saveWhitelisted_run.
  intros [= _ <-]. simpl. by apply Hframe.
Qed.

(** [Remove] writes to the backing array of the members only. *)
Lemma Remove_frame uuid en wl b h tr err p' :
  slice_ok h wl →
  Remove uuid (st en wl sync.unlocked b h tr) = Done err p' →
  ∀ l, l ≠ s_arr wl → mem p' !! l = h !! l.
Proof.
  intros Hok Hrun l Hne.
  destruct (slices_DeleteFunc_run wl (λ s, bool_decide (s = uuid)) en wl
              {| sync.writer := true; sync.readers := 0 |} b h (tr ++ [EvLock]) Hok)
    as (wl' & h' & Hdel & _ & _).
  pose proof (slices_DeleteFunc_frame _ _ _ _ _ _ _ _ _ _ Hdel l Hne) as Hl.
  revert Hrun. exec_outer. rewrite Hdel. exec_outer. rewrite saveWhitelisted_run.
  intros [= _ <-]. exact Hl.
Qed.

(** A [whitelisted] change that is applied writes to the backing array of
    the members or to a new one. *)
Lemma apply_whitelisted_frame data en wl b h tr p' :
  slice_ok h wl →
  apply_change (Some (mkKeyValue "whitelisted" data)) (st en wl sync.unlocked b h tr)
  = Done tt p' →
  ∀ l, l ≠ s_arr wl → l ∈ dom h → mem p' !! l = h !! l.
Proof.
  intros Hok Hrun l Hne Hin. revert Hrun.
  exec_outer. cbv beta iota delta [Key Value].
  destruct (decide ("whitelisted" = "enabled")) as [?|_]; [done |].
  destruct (decide ("whitelisted" = "whitelisted")) as [_|?]; [| done].
  exec. rewrite read_slice_run.
  destruct (Unmarshal data (view h wl)) as [new failure]. exec.
  destruct (assign_slice_run wl new en wl {| sync.writer := true; sync.readers := 0 |} b h
              ((tr ++ [EvLog ("Whitelisted key changed: " +:+ data)]) ++ [EvLock]) Hok)
    as (wl' & h' & Hassign & _ & _).
  pose proof (assign_slice_frame _ _ _ _ _ _ _ _ _ _ Hassign l Hne Hin) as Hl.
  rewrite Hassign. destruct failure; exec; [done |].
  intros [= <-]. exact Hl.
Qed.

End frames.

(** ** Construction and the apply loop *)

Section loop_props.
Context {B : Type} `{!Bucket B} `{!Json bool} `{!Json (list string)} `{!Runtime}.
Implicit Types (p : process B) (b : B) (h : heap) (tr : list event).

(** X1.  [NewKVWhitelist] fails with the first error it meets, that of
    opening the bucket or else that of starting the watcher; otherwise it
    hands out a cache at rest over that bucket which has made no call yet,
    is disabled and contains no identifier. *)
Theorem NewKVWhitelist_result (opened : B + error) (watching : option error) :
  match NewKVWhitelist opened watching with
  | inl p =>
      opened = inl (kv (self p)) ∧ watching = None
      ∧ quiet p ∧ trace p = []
      ∧ (∃ p', IsEnabled p = Done false p')
      ∧ (∀ id, ∃ p', Contains id p = Done false p')
  | inr err =>
      opened = inr err ∨ ((∃ b, opened = inl b) ∧ watching = Some err)
  end.
Proof.
  destruct opened as [b|err]; simpl; [| by left].
  destruct watching as [err|]; [right; eauto |].
  split; [done |]. split; [done |].
  split; [apply quiet_fresh_process |]. split; [done |].
  unfold fresh_process. split.
  - rewrite IsEnabled_run. by eexists.
  - intros id. rewrite Contains_run, view_insert. by eexists.
Qed.

(** X2.  An [enabled] change whose payload decodes is applied: the flag
    reads what the decoder left in it, the members and the store client
    are as before, no call goes to the store and the lock is free again. *)
Theorem enabled_change_is_applied p data :
  quiet p →
  (Unmarshal data (Enabled (self p))).2 = None →
  ∃ p',
    apply_change (Some (mkKeyValue "enabled" data)) p = Done tt p'
    ∧ quiet p'
    ∧ members p' = members p
    ∧ kv (self p') = kv (self p)
    ∧ store_calls (trace p') = store_calls (trace p)
    ∧ ∃ p'', IsEnabled p' = Done (Unmarshal data (Enabled (self p))).1 p''.
Proof.
  intros Hq Hfine.
  destruct (quiet_inv _ Hq) as (en & wl & b & h & tr & -> & Hok).
  cbv beta iota delta [self Enabled] in Hfine.
  rewrite apply_enabled_run. cbv zeta. rewrite Hfine.
  eexists. split; [reflexivity |]. split; [by apply quiet_st |].
  split; [done |]. split; [done |]. split.
  - cbv beta iota delta [self trace]. rewrite store_calls_app. simpl.
    by rewrite app_nil_r.
  - rewrite IsEnabled_run. by eexists.
Qed.

(** X3.  A [whitelisted] change whose payload decodes is applied: the
    members are what the decoder left, [Contains] answers by them, and the
    flag, the store client and the calls to the store are as before. *)
Theorem whitelisted_change_is_applied p data :
  quiet p →
  (Unmarshal data (members p)).2 = None →
  ∃ p',
    apply_change (Some (mkKeyValue "whitelisted" data)) p = Done tt p'
    ∧ quiet p'
    ∧ members p' = (Unmarshal data (members p)).1
    ∧ Enabled (self p') = Enabled (self p)
    ∧ kv (self p') = kv (self p)
    ∧ store_calls (trace p') = store_calls (trace p)
    ∧ ∀ id, ∃ p'',
        Contains id p' = Done (slices_Contains (Unmarshal data (members p)).1 id) p''.
Proof.
  intros Hq Hfine.
  destruct (quiet_inv _ Hq) as (en & wl & b & h & tr & -> & Hok).
  unfold members in *. cbv beta iota delta [self mem Whitelisted] in Hfine.
  destruct (apply_whitelisted_run data en wl b h tr Hok)
    as (wl' & h' & Hrun & Hview & Hok').
  cbv zeta in Hrun. rewrite Hfine in Hrun.
  eexists. split; [exact Hrun |].
  cbv beta iota delta [self mem trace Enabled Whitelisted kv].
  split; [by apply quiet_st |].
  split; [done |]. split; [done |]. split; [done |]. split.
  - rewrite store_calls_app. simpl. by rewrite app_nil_r.
  - intros id. rewrite Contains_run, Hview. by eexists.
Qed.

(** X4.  Nil entries and changes of any other key are passed over: however
    many arrive, and whoever holds the lock, the loop returns with the
    process exactly as it was, no lock taken and no line logged. *)
Theorem apply_loop_passes_over (changes : list (option KeyValue)) p :
  Forall passed_over changes → apply_loop changes p = Done tt p.
Proof.
  induction 1 as [|key changes Hkey _ IH]; [done |].
  rewrite apply_loop_cons.
  destruct key as [key|]; simpl in Hkey.
  - destruct Hkey as [H1 H2]. by rewrite apply_other_run.
  - by rewrite apply_nil_run.
Qed.

(** X5.  When every payload that arrives decodes, the loop works through
    all of them and returns with the lock free; it never calls the store
    and leaves the store client as it was. *)
Theorem apply_loop_runs_to_end (changes : list (option KeyValue)) p :
  quiet p →
  Forall decodes_always changes →
  ∃ p',
    apply_loop changes p = Done tt p'
    ∧ quiet p'
    ∧ kv (self p') = kv (self p)
    ∧ store_calls (trace p') = store_calls (trace p).
Proof.
  intros Hq Hall. revert p Hq.
  induction Hall as [|key changes Hkey _ IH]; intros p Hq.
  - by exists p.
  - rewrite apply_loop_cons.
    assert (Hstep : ∃ p1, apply_change key p = Done tt p1 ∧ quiet p1
                          ∧ kv (self p1) = kv (self p)
                          ∧ store_calls (trace p1) = store_calls (trace p)).
    { destruct key as [[key data]|]; [| by exists p].
      destruct Hkey as [Hen Hwl]. simpl in Hen, Hwl.
      destruct (decide (key = "enabled")) as [->|Hne1];
        [| destruct (decide (key = "whitelisted")) as [->|Hne2]].
      - destruct (quiet_inv _ Hq) as (en & wl & b & h & tr & -> & Hok).
        rewrite apply_enabled_run. cbv zeta. rewrite (Hen eq_refl en).
        eexists. split; [reflexivity |]. split; [by apply quiet_st |].
        split; [done |]. cbv beta iota delta [self trace].
        rewrite store_calls_app. simpl. by rewrite app_nil_r.
      - destruct (quiet_inv _ Hq) as (en & wl & b & h & tr & -> & Hok).
        destruct (apply_whitelisted_run data en wl b h tr Hok)
          as (wl' & h' & Hrun & _ & Hok').
        cbv zeta in Hrun. rewrite (Hwl eq_refl (view h wl)) in Hrun.
        eexists. split; [exact Hrun |]. split; [by apply quiet_st |].
        split; [done |]. cbv beta iota delta [self trace].
        rewrite store_calls_app. simpl. by rewrite app_nil_r.
      - exists p. by rewrite apply_other_run. }
    destruct Hstep as (p1 & -> & Hq1 & Hkv1 & Hcalls1).
    destruct (IH p1 Hq1) as (p' & Hrun & Hq' & Hkv & Hcalls).
    exists p'. split; [done |]. split; [done |].
    split; congruence.
Qed.

End loop_props.

(** ** The accessors and how the mutations compose *)

Section accessor_props.
Context {B : Type} `{!Bucket B} `{!Json bool} `{!Json (list string)} `{!Runtime}.
Implicit Types (p : process B) (b : B) (h : heap) (tr : list event).

Lemma slices_Contains_decide (l : list string) (v : string) :
  slices_Contains l v = bool_decide (v ∈ l).
Proof.
  destruct (decide (v ∈ l)) as [Hin|Hout].
  - rewrite bool_decide_eq_true_2 by done. by apply slices_Contains_true.
  - rewrite bool_decide_eq_false_2 by done. by apply slices_Contains_false.
Qed.

Lemma filter_without (id : string) (l : list string) :
  id ∉ l → filter (λ x, x ≠ id) l = l.
Proof.
  induction l as [|x l IH]; [done |].
  rewrite not_elem_of_cons. intros [Hne Hout].
  rewrite filter_cons_True by done. by rewrite IH.
Qed.

Lemma filter_again (id : string) (l : list string) :
  filter (λ x, x ≠ id) (filter (λ x, x ≠ id) l) = filter (λ x, x ≠ id) l.
Proof.
  apply filter_without. rewrite list_elem_of_filter. tauto.
Qed.

Lemma filter_appended (id : string) (l : list string) :
  filter (λ x, x ≠ id) (l ++ [id]) = filter (λ x, x ≠ id) l.
Proof.
  rewrite filter_app, filter_cons_False by tauto.
  by rewrite filter_nil, app_nil_r.
Qed.

(** X6.  The three read accessors answer from the state and change nothing
    in it: [IsEnabled] gives the flag, [Contains] tells whether the
    identifier is among the members, [AllWhitelisted] gives the members;
    none of them calls the store, and each leaves the lock free. *)
Theorem read_accessors_change_nothing p :
  quiet p →
  (∃ p', IsEnabled p = Done (Enabled (self p)) p' ∧ unchanged p p')
  ∧ (∀ id, ∃ p',
       Contains id p = Done (bool_decide (id ∈ members p)) p' ∧ unchanged p p')
  ∧ (∃ copy p',
       AllWhitelisted p = Done copy p'
       ∧ view (mem p') copy = members p
       ∧ unchanged p p').
Proof.
  intros Hq.
  destruct (quiet_inv _ Hq) as (en & wl & b & h & tr & -> & Hok).
  assert (Hreads : ∀ tr', store_calls (tr ++ [EvRLock; EvRUnlock]) = store_calls tr).
  { intros _. rewrite store_calls_app. simpl. by rewrite app_nil_r. }
  unfold unchanged, members. split; [| split].
  - rewrite IsEnabled_run. eexists. split; [reflexivity |].
    cbv beta iota delta [self mem trace Enabled Whitelisted kv].
    repeat split; try done; [by apply Hreads | apply Hok | apply Hok].
  - intros id. rewrite Contains_run, slices_Contains_decide.
    eexists. split; [reflexivity |].
    cbv beta iota delta [self mem trace Enabled Whitelisted kv].
    repeat split; try done; [by apply Hreads | apply Hok | apply Hok].
  - destruct (AllWhitelisted_run en wl b h tr Hok)
      as (copy & h' & Hrun & Hview & _ & _ & Hframe).
    assert (Hsame : h' !! s_arr wl = h !! s_arr wl).
    { apply Hframe. by apply slice_ok_dom. }
    exists copy. eexists. split; [exact Hrun |].
    cbv beta iota delta [self mem trace Enabled Whitelisted kv].
    split; [done |]. split; [done |]. split; [by apply view_agree |].
    split; [done |]. split; [by apply Hreads |].
    apply quiet_st. by apply (slice_ok_agree h).
Qed.

(** X7.  A mutation touches its own field only: [Enable] and [Disable]
    leave the members as they were, [Add] and [Remove] leave the flag as
    it was and do not change whether any other identifier is a member. *)
Theorem mutations_touch_one_field p :
  quiet p →
  (∃ err p', Enable p = Done err p' ∧ members p' = members p)
  ∧ (∃ err p', Disable p = Done err p' ∧ members p' = members p)
  ∧ (∀ id, ∃ err p',
       Add id p = Done err p'
       ∧ Enabled (self p') = Enabled (self p)
       ∧ ∀ id', id' ≠ id → (id' ∈ members p' ↔ id' ∈ members p))
  ∧ (∀ id, ∃ err p',
       Remove id p = Done err p'
       ∧ Enabled (self p') = Enabled (self p)
       ∧ ∀ id', id' ≠ id → (id' ∈ members p' ↔ id' ∈ members p)).
Proof.
  intros Hq.
  destruct (quiet_inv _ Hq) as (en & wl & b & h & tr & -> & Hok).
  unfold members. cbv beta iota delta [self mem Enabled Whitelisted].
  split; [| split; [| split]].
  - rewrite Enable_run. by eexists _, _.
  - rewrite Disable_run. by eexists _, _.
  - intros id. destruct (Add_run id en wl b h tr Hok) as (wl' & h' & Hrun & Hview & _).
    cbv zeta in Hrun. rewrite Hrun. eexists _, _. split; [reflexivity |].
    cbv beta iota delta [self mem Enabled Whitelisted]. split; [done |].
    intros id' Hne. rewrite Hview, elem_of_app, list_elem_of_singleton. tauto.
  - intros id. destruct (Remove_run id en wl b h tr Hok) as (wl' & h' & Hrun & Hview & _).
    cbv zeta in Hrun. rewrite Hrun, kept_filter in *. eexists _, _. split; [reflexivity |].
    cbv beta iota delta [self mem Enabled Whitelisted]. split; [done |].
    intros id' Hne. rewrite Hview, list_elem_of_filter. tauto.
Qed.

(** X8.  [Remove] of an identifier that is not a member leaves the members
    as they are, and still writes the whole sequence to the store. *)
Theorem Remove_of_absent_keeps_members p id :
  quiet p →
  id ∉ members p →
  ∃ err p',
    Remove id p = Done err p'
    ∧ members p' = members p
    ∧ store_calls (trace p') =
      store_calls (trace p) ++ [EvSet "whitelisted" (Marshal (members p))].
Proof.
  intros Hq Hout.
  destruct (quiet_inv _ Hq) as (en & wl & b & h & tr & -> & Hok).
  unfold members in *. cbv beta iota delta [self mem trace Whitelisted] in *.
  destruct (Remove_run id en wl b h tr Hok) as (wl' & h' & Hrun & Hview & _).
  cbv zeta in Hrun. rewrite kept_filter, filter_without in Hrun, Hview by done.
  rewrite Hrun. eexists _, _. split; [reflexivity |].
  cbv beta iota delta [self mem trace Whitelisted]. split; [done |].
  by rewrite store_calls_app.
Qed.

(** X9.  [Remove] twice is [Remove] once: the second call finds nothing
    left to drop. *)
Theorem Remove_twice_is_Remove_once p id :
  quiet p →
  ∃ err1 p1 err2 p2,
    Remove id p = Done err1 p1
    ∧ Remove id p1 = Done err2 p2
    ∧ members p2 = members p1.
Proof.
  intros Hq.
  destruct (quiet_inv _ Hq) as (en & wl & b & h & tr & -> & Hok).
  destruct (Remove_run id en wl b h tr Hok) as (wl1 & h1 & Hrun1 & Hview1 & Hok1).
  cbv zeta in Hrun1. rewrite Hrun1.
  match type of Hrun1 with
  | _ = Done _ (st _ _ _ ?b1 _ ?tr1) =>
      destruct (Remove_run id en wl1 b1 h1 tr1 Hok1) as (wl2 & h2 & Hrun2 & Hview2 & _)
  end.
  cbv zeta in Hrun2.
  eexists _, _, _, _. split; [reflexivity |]. split; [exact Hrun2 |].
  unfold members. cbv beta iota delta [self mem Whitelisted].
  rewrite Hview2, Hview1, !kept_filter. apply filter_again.
Qed.

(** X10.  [Add] followed by [Remove] of the same identifier leaves the
    earlier members without that identifier: the members are restored
    exactly when it was not among them before. *)
Theorem Add_then_Remove p id :
  quiet p →
  ∃ err1 p1 err2 p2,
    Add id p = Done err1 p1
    ∧ Remove id p1 = Done err2 p2
    ∧ members p2 = filter (λ x, x ≠ id) (members p)
    ∧ (id ∉ members p → members p2 = members p).
Proof.
  intros Hq.
  destruct (quiet_inv _ Hq) as (en & wl & b & h & tr & -> & Hok).
  destruct (Add_run id en wl b h tr Hok) as (wl1 & h1 & Hrun1 & Hview1 & Hok1).
  cbv zeta in Hrun1. rewrite Hrun1.
  match type of Hrun1 with
  | _ = Done _ (st _ _ _ ?b1 _ ?tr1) =>
      destruct (Remove_run id en wl1 b1 h1 tr1 Hok1) as (wl2 & h2 & Hrun2 & Hview2 & _)
  end.
  cbv zeta in Hrun2.
  eexists _, _, _, _. split; [reflexivity |]. split; [exact Hrun2 |].
  unfold members. cbv beta iota delta [self mem Whitelisted].
  rewrite Hview2, Hview1, kept_filter, filter_appended.
  split; [done |]. apply filter_without.
Qed.

(** X11.  The slice [AllWhitelisted] returned is a snapshot: later
    additions, removals and applied [whitelisted] changes in the cache do
    not show through it. *)
Theorem snapshot_outlives_mutations p :
  quiet p →
  ∃ copy p1,
    AllWhitelisted p = Done copy p1
    ∧ view (mem p1) copy = members p
    ∧ (∀ id, ∃ err p2, Add id p1 = Done err p2 ∧ view (mem p2) copy = members p)
    ∧ (∀ id, ∃ err p2, Remove id p1 = Done err p2 ∧ view (mem p2) copy = members p)
    ∧ (∀ data, (Unmarshal data (members p)).2 = None →
         ∃ p2, apply_change (Some (mkKeyValue "whitelisted" data)) p1 = Done tt p2
               ∧ view (mem p2) copy = members p).
Proof.
  intros Hq.
  destruct (quiet_inv _ Hq) as (en & wl & b & h & tr & -> & Hok).
  unfold members. cbv beta iota delta [self mem Whitelisted].
  destruct (AllWhitelisted_run en wl b h tr Hok)
    as (copy & h1 & Hrun & Hview & Hokc & Hnew & Hframe).
  pose proof (slice_ok_dom _ _ Hok) as Hdom.
  assert (Hwl1 : h1 !! s_arr wl = h !! s_arr wl) by by apply Hframe.
  assert (Hok1 : slice_ok h1 wl) by by apply (slice_ok_agree h).
  assert (Hne : s_arr copy ≠ s_arr wl) by (intros Heq; apply Hnew; by rewrite Heq).
  pose proof (slice_ok_dom _ _ Hokc) as Hdomc.
  exists copy. eexists. split; [exact Hrun |].
  cbv beta iota delta [self mem Whitelisted].
  split; [done |]. split; [| split].
  - intros id.
    destruct (Add_run id en wl b h1 (tr ++ [EvRLock; EvRUnlock]) Hok1)
      as (wl2 & h2 & Hadd & _).
    cbv zeta in Hadd. eexists _, _. split; [exact Hadd |].
    rewrite <- Hview. apply view_agree.
    by apply (Add_frame _ _ _ _ _ _ _ _ Hok1 Hadd).
  - intros id.
    destruct (Remove_run id en wl b h1 (tr ++ [EvRLock; EvRUnlock]) Hok1)
      as (wl2 & h2 & Hdel & _).
    cbv zeta in Hdel. eexists _, _. split; [exact Hdel |].
    rewrite <- Hview. apply view_agree.
    by apply (Remove_frame _ _ _ _ _ _ _ _ Hok1 Hdel).
  - intros data Hfine.
    destruct (apply_whitelisted_run data en wl b h1 (tr ++ [EvRLock; EvRUnlock]) Hok1)
      as (wl2 & h2 & Happly & _).
    cbv zeta in Happly.
    rewrite (view_agree h h1 wl Hwl1), Hfine in Happly.
    eexists. split; [exact Happly |].
    rewrite <- Hview. apply view_agree.
    by apply (apply_whitelisted_frame _ _ _ _ _ _ _ Hok1 Happly).
Qed.

(** X12.  While the exclusive lock is held elsewhere no method gets in:
    each call waits at its first statement, with nothing read, written,
    logged or sent to the store. *)
Theorem methods_wait_for_the_writer p :
  sync.writer (m (self p)) = true →
  Enable p = Blocked p
  ∧ Disable p = Blocked p
  ∧ (∀ id, Add id p = Blocked p)
  ∧ (∀ id, Remove id p = Blocked p)
  ∧ (∀ id, Contains id p = Blocked p)
  ∧ IsEnabled p = Blocked p
  ∧ AllWhitelisted p = Blocked p
  ∧ Reload p = Blocked p.
Proof.
  destruct p as [[en wl [held n] b] h tr]. simpl. intros ->.
  repeat split; try intros id; exec; reflexivity.
Qed.


(** X14.  [Add] and [Remove] change the members before they persist them,
    and return what the store answered to the write of the new sequence:
    when the store fails, the call fails and the cache keeps the change. *)
Theorem Add_Remove_commit_before_persist p id :
  quiet p →
  (∃ p',
     Add id p =
     Done (wrap_set (kv_Set (kv (self p)) "whitelisted"
                       (Marshal (members p ++ [id]))).2) p'
     ∧ members p' = members p ++ [id]
     ∧ ∃ p'', Contains id p' = Done true p'')
  ∧ (∃ p',
       Remove id p =
       Done (wrap_set (kv_Set (kv (self p)) "whitelisted"
                         (Marshal (filter (λ x, x ≠ id) (members p)))).2) p'
       ∧ members p' = filter (λ x, x ≠ id) (members p)
       ∧ ∃ p'', Contains id p' = Done false p'').
Proof.
  intros Hq.
  destruct (quiet_inv _ Hq) as (en & wl & b & h & tr & -> & Hok).
  unfold members. cbv beta iota delta [self mem Whitelisted kv]. split.
  - destruct (Add_run id en wl b h tr Hok) as (wl' & h' & Hrun & Hview & _).
    cbv zeta in Hrun. eexists. split; [exact Hrun |].
    cbv beta iota delta [self mem Whitelisted]. split; [done |].
    rewrite Contains_run, Hview, slices_Contains_decide.
    rewrite bool_decide_eq_true_2; [by eexists |].
    apply elem_of_app. right. by apply list_elem_of_singleton.
  - destruct (Remove_run id en wl b h tr Hok) as (wl' & h' & Hrun & Hview & _).
    cbv zeta in Hrun. rewrite kept_filter in Hrun, Hview.
    eexists. split; [exact Hrun |].
    cbv beta iota delta [self mem Whitelisted]. split; [done |].
    rewrite Contains_run, Hview, slices_Contains_decide.
    rewrite bool_decide_eq_false_2; [by eexists |].
    rewrite list_elem_of_filter. tauto.
Qed.

End accessor_props.

(** ** More on [Reload], and what is written against what is read *)

Section reload_more.
Context {B : Type} `{!Bucket B} `{!Json bool} `{!Json (list string)} `{!Runtime}.
Implicit Types (p : process B) (b : B) (h : heap) (tr : list event).

Lemma settled_after_fetch {T} `{!Json T} b key (dst : T) :
  settled T → after_fetch b key (after_fetch b key dst) = after_fetch b key dst.
Proof.
  intros Hs. unfold after_fetch. destruct (kv_Get b key).2 as [data|e]; [| done].
  by rewrite Hs.
Qed.

Lemma settled_fetch_error {T} `{!Json T} b key (dst : T) :
  settled T → fetch_error b key (after_fetch b key dst) = fetch_error b key dst.
Proof.
  intros Hs. unfold fetch_error, after_fetch.
  destruct (kv_Get b key).2 as [data|e]; [| done]. by rewrite Hs.
Qed.

(** X15.  [Reload] only reads: it asks for [enabled], and for
    [whitelisted] only when [enabled] was reported as never set; it writes
    nothing to the store; and on every path, failed or not, it returns with
    the lock released. *)
Theorem Reload_only_reads p :
  quiet p →
  ∃ p',
    Reload p = Done (Reload_error p) p'
    ∧ quiet p'
    ∧ store_sets (trace p') = store_sets (trace p)
    ∧ trace p' =
      trace p ++ (if absent_in (kv (self p)) "enabled"
                  then [EvLock; EvGet "enabled"; EvGet "whitelisted"; EvUnlock]
                  else [EvLock; EvGet "enabled"; EvUnlock]).
Proof.
  intros Hq.
  destruct (quiet_inv _ Hq) as (en & wl & b & h & tr & -> & Hok).
  unfold Reload_error, members.
  cbv beta iota zeta delta [self mem trace Enabled Whitelisted kv].
  pose proof (Reload_run en wl b h tr Hok) as Hrun. cbv zeta in Hrun.
  destruct (absent_in b "enabled").
  - destruct Hrun as (wl' & h' & Hrun & _ & Hok').
    eexists. split; [exact Hrun |]. split; [by apply quiet_st |].
    cbv beta iota delta [self mem trace]. split; [| done].
    rewrite store_sets_app. simpl. by rewrite app_nil_r.
  - eexists. split; [exact Hrun |]. split; [by apply quiet_st |].
    cbv beta iota delta [self mem trace]. split; [| done].
    rewrite store_sets_app. simpl. by rewrite app_nil_r.
Qed.

(** X16.  [Reload] twice is [Reload] once, when reading leaves the store
    client as it was and the decoders are settled: the second call returns
    the same error and leaves the flag and the members of the first. *)
Theorem Reload_twice_is_Reload_once p :
  settled bool →
  settled (list string) →
  reads_are_pure (kv (self p)) →
  quiet p →
  ∃ p1 p2,
    Reload p = Done (Reload_error p) p1
    ∧ Reload p1 = Done (Reload_error p) p2
    ∧ Enabled (self p2) = Enabled (self p1)
    ∧ members p2 = members p1.
Proof.
  intros Hbool Hstrings Hpure Hq.
  destruct (quiet_inv _ Hq) as (en & wl & b & h & tr & -> & Hok).
  unfold Reload_error, members, reads_are_pure in *.
  cbv beta iota zeta delta [self mem trace Enabled Whitelisted kv] in *.
  pose proof (Reload_run en wl b h tr Hok) as Hrun. cbv zeta in Hrun.
  rewrite !Hpure in *.
  destruct (absent_in b "enabled") eqn:Habs.
  - destruct Hrun as (wl1 & h1 & Hrun & Hview1 & Hok1).
    match type of Hrun with
    | _ = Done _ (st _ _ _ _ _ ?tr1) =>
        pose proof (Reload_run false wl1 b h1 tr1 Hok1) as Hrun2
    end.
    cbv zeta in Hrun2. rewrite !Hpure, Habs in Hrun2.
    destruct Hrun2 as (wl2 & h2 & Hrun2 & Hview2 & _).
    eexists _, _. split; [exact Hrun |].
    cbv beta iota delta [self mem Enabled Whitelisted].
    destruct (absent_in b "whitelisted").
    + split; [exact Hrun2 |]. split; [done |]. by rewrite Hview2, Hview1.
    + rewrite Hview1, settled_fetch_error, settled_after_fetch in * by done.
      split; [exact Hrun2 |]. split; [done |]. by rewrite Hview2.
  - match type of Hrun with
    | _ = Done _ (st ?en1 _ _ _ _ ?tr1) =>
        pose proof (Reload_run en1 wl b h tr1 Hok) as Hrun2
    end.
    cbv zeta in Hrun2. rewrite !Hpure, Habs in Hrun2.
    rewrite settled_fetch_error, settled_after_fetch in Hrun2 by done.
    eexists _, _. split; [exact Hrun |]. split; [exact Hrun2 |]. done.
Qed.

(** X17.  When the store reports [enabled] as never set, [Reload] goes on
    to [whitelisted] with the flag reset: if that key was never set either
    the reload succeeds and the cache is empty, and if it holds a value the
    members become what decoding it leaves and the decoder's verdict is
    what [Reload] returns. *)
Theorem Reload_after_absent_enabled p :
  quiet p →
  absent_in (kv (self p)) "enabled" = true →
  let b1 := (kv_Get (kv (self p)) "enabled").1 in
  ∃ p',
    Reload p = Done (Reload_error p) p'
    ∧ quiet p'
    ∧ Enabled (self p') = false
    ∧ (absent_in b1 "whitelisted" = true → Reload_error p = None ∧ members p' = [])
    ∧ (∀ data, (kv_Get b1 "whitelisted").2 = inl data →
         Reload_error p = wrap_unmarshal (Unmarshal data (members p)).2
         ∧ members p' = (Unmarshal data (members p)).1).
Proof.
  intros Hq Habs.
  destruct (quiet_inv _ Hq) as (en & wl & b & h & tr & -> & Hok).
  unfold Reload_error, members.
  cbv beta iota zeta delta [self mem trace Enabled Whitelisted kv] in *.
  pose proof (Reload_run en wl b h tr Hok) as Hrun. cbv zeta in Hrun.
  rewrite Habs in *. destruct Hrun as (wl' & h' & Hrun & Hview & Hok').
  eexists. split; [exact Hrun |]. split; [by apply quiet_st |].
  cbv beta iota delta [self mem Enabled Whitelisted].
  split; [done |]. split.
  - intros Habs2. rewrite Habs2 in *. done.
  - intros data Hdata. unfold absent_in, fetch_error, after_fetch in *.
    rewrite Hdata in *. done.
Qed.

(** X18.  When the store fails on the read of [enabled] with anything but
    not-found, [Reload] returns that failure and stops: [whitelisted] is
    not asked for, and the flag and the members are as before. *)
Theorem Reload_stops_at_failed_enabled_read p e :
  quiet p →
  (kv_Get (kv (self p)) "enabled").2 = inr e →
  chain_has ErrKeyNotFound e = false →
  ∃ p',
    Reload p = Done (Some (Wrap "get key" e)) p'
    ∧ quiet p'
    ∧ Enabled (self p') = Enabled (self p)
    ∧ members p' = members p
    ∧ trace p' = trace p ++ [EvLock; EvGet "enabled"; EvUnlock].
Proof.
  intros Hq Hget Hother.
  destruct (quiet_inv _ Hq) as (en & wl & b & h & tr & -> & Hok).
  unfold members. cbv beta iota delta [self mem trace Enabled Whitelisted kv] in *.
  pose proof (Reload_run en wl b h tr Hok) as Hrun. cbv zeta in Hrun.
  unfold absent_in, fetch_error, after_fetch in Hrun. rewrite Hget, Hother in Hrun.
  eexists. split; [exact Hrun |]. split; [by apply quiet_st |]. done.
Qed.

(** X19.  What [Enable] and [Disable] write to the store is what the apply
    loop reads back: delivered as a change to any cache at rest, the writer
    included, the bytes set under [enabled] make its flag the one written,
    provided the decoder reads back what the encoder wrote. *)
Theorem persisted_flag_reaches_watchers (a w : process B) (v : bool) :
  quiet a →
  quiet w →
  Unmarshal (Marshal v) (Enabled (self w)) = (v, None) →
  ∃ err a' data,
    (if v then Enable a else Disable a) = Done err a'
    ∧ store_calls (trace a') = store_calls (trace a) ++ [EvSet "enabled" data]
    ∧ ∃ w',
        apply_change (Some (mkKeyValue "enabled" data)) w = Done tt w'
        ∧ ∃ w'', IsEnabled w' = Done v w''.
Proof.
  intros Ha Hw Hround.
  destruct (quiet_inv _ Ha) as (en & wl & b & h & tr & -> & Hok).
  destruct (quiet_inv _ Hw) as (en' & wl' & b' & h' & tr' & -> & Hok').
  cbv beta iota delta [self trace Enabled] in *.
  assert (Hset : (if v then Enable (st en wl sync.unlocked b h tr)
                  else Disable (st en wl sync.unlocked b h tr)) =
                 Done (wrap_set (kv_Set b "enabled" (Marshal v)).2)
                      (st v wl sync.unlocked (kv_Set b "enabled" (Marshal v)).1 h
                          (tr ++ write_through "enabled" (Marshal v)))).
  { destruct v; [apply Enable_run | apply Disable_run]. }
  eexists _, _, (Marshal v). split; [exact Hset |].
  cbv beta iota delta [self trace]. split.
  { by rewrite store_calls_app. }
  rewrite apply_enabled_run. cbv zeta. rewrite Hround. simpl.
  eexists. split; [reflexivity |]. rewrite IsEnabled_run. by eexists.
Qed.

(** X20.  What [Add] writes to the store is what the apply loop reads
    back: delivered as a change to any cache at rest, the bytes set under
    [whitelisted] make its members those of the writer, provided the
    decoder reads back what the encoder wrote. *)
Theorem persisted_members_reach_watchers (a w : process B) (id : string) :
  quiet a →
  quiet w →
  Unmarshal (Marshal (members a ++ [id])) (members w) = (members a ++ [id], None) →
  ∃ err a' data,
    Add id a = Done err a'
    ∧ store_calls (trace a') = store_calls (trace a) ++ [EvSet "whitelisted" data]
    ∧ ∃ w',
        apply_change (Some (mkKeyValue "whitelisted" data)) w = Done tt w'
        ∧ members w' = members a'.
Proof.
  intros Ha Hw Hround.
  destruct (quiet_inv _ Ha) as (en & wl & b & h & tr & -> & Hok).
  destruct (quiet_inv _ Hw) as (en' & wl' & b' & h' & tr' & -> & Hok').
  unfold members in *. cbv beta iota delta [self mem trace Whitelisted] in *.
  destruct (Add_run id en wl b h tr Hok) as (wl1 & h1 & Hadd & Hview1 & _).
  cbv zeta in Hadd.
  destruct (apply_whitelisted_run (Marshal (view h wl ++ [id])) en' wl' b' h' tr' Hok')
    as (wl2 & h2 & Happly & Hview2 & _).
  cbv zeta in Happly. rewrite Hround in Happly, Hview2. simpl in Happly, Hview2.
  eexists _, _, _. split; [exact Hadd |].
  cbv beta iota delta [self mem trace Whitelisted]. split.
  { by rewrite store_calls_app. }
  eexists. split; [exact Happly |].
  cbv beta iota delta [self mem Whitelisted]. by rewrite Hview1, Hview2.
Qed.

End reload_more.

(** * The further properties on the example states *)

Section more_on_examples.
Import fixtures examples contended.

Lemma json_bool_settled : settled bool.
Proof.
  intros data dst. unfold Unmarshal, json_bool.
  repeat case_decide; simpl; congruence.
Qed.

Lemma json_strings_settled : settled (list string).
Proof.
  intros data dst. unfold Unmarshal, json_strings.
  destruct (scan AtStart EmptyString [] data); [done |].
  repeat case_decide; simpl; congruence.
Qed.

Lemma mem_bucket_reads_pure (b : MemBucket) : reads_are_pure b.
Proof.
  intros key. unfold kv_Get, mem_bucket.
  destruct (down b); [done |]. by destruct (stored b !! key).
Qed.

Lemma members_cache en ids b : members (cache en ids b) = ids.
Proof.
  unfold members, cache, view, array_at. simpl.
  rewrite lookup_singleton_eq. simpl. by rewrite take_ge.
Qed.

(** X2 at the payload [true] delivered to a disabled cache. *)
Lemma enabled_change_is_applied_witness :
  quiet (cache false ["alice"] (store_of []))
  ∧ (Unmarshal "true" (Enabled (self (cache false ["alice"] (store_of []))))).2 = None
  ∧ ∃ p',
      apply_change (Some (mkKeyValue "enabled" "true")) (cache false ["alice"] (store_of []))
      = Done tt p'
      ∧ members p' = members (cache false ["alice"] (store_of []))
      ∧ ∃ p'', IsEnabled p' = Done true p''.
Proof.
  split; [apply quiet_cache |]. split; [vm_compute; reflexivity |].
  destruct (enabled_change_is_applied (cache false ["alice"] (store_of [])) "true")
    as (p' & Hrun & _ & Hm & _ & _ & Hen).
  - apply quiet_cache.
  - vm_compute. reflexivity.
  - exists p'. split; [exact Hrun |]. split; [exact Hm |]. exact Hen.
Defined.

(** X3 at a payload of two identifiers delivered to a cache that holds
    another one. *)
Lemma whitelisted_change_is_applied_witness :
  quiet (cache true ["bob"] both_set)
  ∧ Unmarshal (Marshal ["alice"; "carol"]) (members (cache true ["bob"] both_set))
    = (["alice"; "carol"], None)
  ∧ ∃ p',
      apply_change (Some (mkKeyValue "whitelisted" (Marshal ["alice"; "carol"])))
                   (cache true ["bob"] both_set) = Done tt p'
      ∧ members p' = ["alice"; "carol"]
      ∧ Enabled (self p') = true.
Proof.
  split; [apply quiet_cache |].
  assert (Hdec : Unmarshal (Marshal ["alice"; "carol"])
                   (members (cache true ["bob"] both_set)) = (["alice"; "carol"], None)).
  { vm_compute. reflexivity. }
  split; [exact Hdec |].
  destruct (whitelisted_change_is_applied (cache true ["bob"] both_set)
              (Marshal ["alice"; "carol"]))
    as (p' & Hrun & _ & Hm & Hen & _).
  - apply quiet_cache.
  - by rewrite Hdec.
  - exists p'. split; [exact Hrun |]. rewrite Hm, Hdec, Hen. done.
Defined.

(** X4 at two nil entries around a change of a key the loop has no case
    for, with the lock held elsewhere. *)
Lemma apply_loop_passes_over_witness :
  Forall passed_over [None; Some (mkKeyValue "banned" "[]"); None]
  ∧ apply_loop [None; Some (mkKeyValue "banned" "[]"); None]
               (held_as written (cache true ["alice"] both_set))
    = Done tt (held_as written (cache true ["alice"] both_set)).
Proof.
  assert (Hall : Forall passed_over [None; Some (mkKeyValue "banned" "[]"); None]).
  { repeat constructor; simpl; discriminate. }
  split; [exact Hall |].
  apply (apply_loop_passes_over _ (held_as written (cache true ["alice"] both_set)) Hall).
Defined.

(** X5 at a run of four values: a flag, a nil entry, a list and a key the
    loop has no case for. *)
Lemma apply_loop_runs_to_end_witness :
  quiet (fresh_process both_set)
  ∧ Forall decodes_always
      [Some (mkKeyValue "enabled" "true"); None;
       Some (mkKeyValue "whitelisted" (Marshal ["alice"]));
       Some (mkKeyValue "banned" "{")]
  ∧ ∃ p',
      apply_loop
        [Some (mkKeyValue "enabled" "true"); None;
         Some (mkKeyValue "whitelisted" (Marshal ["alice"]));
         Some (mkKeyValue "banned" "{")]
        (fresh_process both_set) = Done tt p'
      ∧ quiet p'
      ∧ kv (self p') = kv (self (fresh_process both_set))
      ∧ store_calls (trace p') = store_calls (trace (fresh_process both_set)).
Proof.
  split; [apply quiet_fresh_process |].
  assert (Hall : Forall decodes_always
                   [Some (mkKeyValue "enabled" "true"); None;
                    Some (mkKeyValue "whitelisted" (Marshal ["alice"]));
                    Some (mkKeyValue "banned" "{")]).
  { repeat constructor; simpl; intros Hkey dst;
      try discriminate Hkey; vm_compute; reflexivity. }
  split; [exact Hall |].
  apply (apply_loop_runs_to_end _ (fresh_process both_set)
           (quiet_fresh_process _) Hall).
Defined.

(** X6 at an enabled cache with two members. *)
Lemma read_accessors_change_nothing_witness :
  quiet (cache true ["alice"; "bob"] both_set)
  ∧ (∃ p', IsEnabled (cache true ["alice"; "bob"] both_set) = Done true p'
           ∧ unchanged (cache true ["alice"; "bob"] both_set) p')
  ∧ (∃ p', Contains "bob" (cache true ["alice"; "bob"] both_set) = Done true p'
           ∧ unchanged (cache true ["alice"; "bob"] both_set) p')
  ∧ (∃ p', Contains "carol" (cache true ["alice"; "bob"] both_set) = Done false p'
           ∧ unchanged (cache true ["alice"; "bob"] both_set) p')
  ∧ (∃ copy p', AllWhitelisted (cache true ["alice"; "bob"] both_set) = Done copy p'
                ∧ view (mem p') copy = ["alice"; "bob"]
                ∧ unchanged (cache true ["alice"; "bob"] both_set) p').
Proof.
  split; [apply quiet_cache |].
  destruct (read_accessors_change_nothing (cache true ["alice"; "bob"] both_set)
              (quiet_cache _ _ _)) as (Hen & Hcontains & Hall).
  split; [exact Hen |].
  split; [| split].
  - destruct (Hcontains "bob") as (p' & Hrun & Hsame).
    exists p'. split; [| exact Hsame]. rewrite Hrun, members_cache. reflexivity.
  - destruct (Hcontains "carol") as (p' & Hrun & Hsame).
    exists p'. split; [| exact Hsame]. rewrite Hrun, members_cache. reflexivity.
  - destruct Hall as (copy & p' & Hrun & Hview & Hsame).
    exists copy, p'. split; [exact Hrun |]. split; [| exact Hsame].
    by rewrite Hview, members_cache.
Defined.

(** X7 at an enabled cache with one member: [Disable] and [Add]. *)
Lemma mutations_touch_one_field_witness :
  quiet (cache true ["alice"] both_set)
  ∧ (∃ err p', Disable (cache true ["alice"] both_set) = Done err p'
               ∧ members p' = members (cache true ["alice"] both_set))
  ∧ (∃ err p', Add "bob" (cache true ["alice"] both_set) = Done err p'
               ∧ Enabled (self p') = Enabled (self (cache true ["alice"] both_set))
               ∧ ∀ id', id' ≠ "bob" →
                   (id' ∈ members p' ↔ id' ∈ members (cache true ["alice"] both_set))).
Proof.
  split; [apply quiet_cache |].
  destruct (mutations_touch_one_field (cache true ["alice"] both_set) (quiet_cache _ _ _))
    as (_ & Hdis & Hadd & _).
  split; [exact Hdis | exact (Hadd "bob")].
Defined.

(** X8 at the removal of an identifier the cache does not hold. *)
Lemma Remove_of_absent_keeps_members_witness :
  quiet (cache false ["alice"; "bob"] both_set)
  ∧ ("carol" ∉ members (cache false ["alice"; "bob"] both_set))
  ∧ ∃ err p',
      Remove "carol" (cache false ["alice"; "bob"] both_set) = Done err p'
      ∧ members p' = members (cache false ["alice"; "bob"] both_set)
      ∧ store_calls (trace p') =
        store_calls (trace (cache false ["alice"; "bob"] both_set))
        ++ [EvSet "whitelisted" (Marshal (members (cache false ["alice"; "bob"] both_set)))].
Proof.
  split; [apply quiet_cache |].
  assert (Hout : "carol" ∉ members (cache false ["alice"; "bob"] both_set)).
  { rewrite members_cache. intros Hin.
    repeat (apply elem_of_cons in Hin as [Hin|Hin]; [discriminate Hin |]).
    by apply elem_of_nil in Hin. }
  split; [exact Hout |].
  apply (Remove_of_absent_keeps_members (cache false ["alice"; "bob"] both_set) "carol"
           (quiet_cache _ _ _) Hout).
Defined.

(** X9 at a cache that holds the identifier twice. *)
Lemma Remove_twice_is_Remove_once_witness :
  quiet (cache false ["alice"; "bob"; "alice"] both_set)
  ∧ ∃ err1 p1 err2 p2,
      Remove "alice" (cache false ["alice"; "bob"; "alice"] both_set) = Done err1 p1
      ∧ Remove "alice" p1 = Done err2 p2
      ∧ members p2 = members p1.
Proof.
  split; [apply quiet_cache |].
  apply (Remove_twice_is_Remove_once (cache false ["alice"; "bob"; "alice"] both_set)).
  apply quiet_cache.
Defined.

(** X10 at a cache that already holds the identifier: the earlier
    occurrence goes too. *)
Lemma Add_then_Remove_witness :
  quiet (cache false ["alice"; "bob"] both_set)
  ∧ ∃ err1 p1 err2 p2,
      Add "alice" (cache false ["alice"; "bob"] both_set) = Done err1 p1
      ∧ Remove "alice" p1 = Done err2 p2
      ∧ members p2 = ["bob"].
Proof.
  split; [apply quiet_cache |].
  destruct (Add_then_Remove (cache false ["alice"; "bob"] both_set) "alice"
              (quiet_cache _ _ _))
    as (err1 & p1 & err2 & p2 & Hadd & Hdel & Hm & _).
  exists err1, p1, err2, p2. split; [exact Hadd |]. split; [exact Hdel |].
  rewrite Hm, members_cache. reflexivity.
Defined.

(** X11 at a cache with two members. *)
Lemma snapshot_outlives_mutations_witness :
  quiet (cache false ["alice"; "bob"] both_set)
  ∧ ∃ copy p1,
      AllWhitelisted (cache false ["alice"; "bob"] both_set) = Done copy p1
      ∧ view (mem p1) copy = ["alice"; "bob"]
      ∧ (∃ err p2, Add "carol" p1 = Done err p2 ∧ view (mem p2) copy = ["alice"; "bob"])
      ∧ (∃ err p2, Remove "alice" p1 = Done err p2 ∧ view (mem p2) copy = ["alice"; "bob"])
      ∧ (∃ p2, apply_change (Some (mkKeyValue "whitelisted" (Marshal ["dave"]))) p1
               = Done tt p2
               ∧ view (mem p2) copy = ["alice"; "bob"]).
Proof.
  split; [apply quiet_cache |].
  destruct (snapshot_outlives_mutations (cache false ["alice"; "bob"] both_set)
              (quiet_cache _ _ _))
    as (copy & p1 & Hrun & Hview & Hadd & Hdel & Hchange).
  rewrite members_cache in *.
  exists copy, p1. split; [exact Hrun |]. split; [exact Hview |].
  split; [exact (Hadd "carol") |]. split; [exact (Hdel "alice") |].
  apply (Hchange (Marshal ["dave"])). vm_compute. reflexivity.
Defined.

(** X12 at a cache whose lock is held for writing. *)
Lemma methods_wait_for_the_writer_witness :
  sync.writer (m (self (held_as written (cache true ["alice"] both_set)))) = true
  ∧ Enable (held_as written (cache true ["alice"] both_set))
    = Blocked (held_as written (cache true ["alice"] both_set))
  ∧ Contains "alice" (held_as written (cache true ["alice"] both_set))
    = Blocked (held_as written (cache true ["alice"] both_set))
  ∧ Reload (held_as written (cache true ["alice"] both_set))
    = Blocked (held_as written (cache true ["alice"] both_set)).
Proof.
  split; [reflexivity |].
  destruct (methods_wait_for_the_writer (held_as written (cache true ["alice"] both_set))
              eq_refl)
    as (Hen & _ & _ & _ & Hcontains & _ & _ & Hreload).
  split; [exact Hen |]. split; [exact (Hcontains "alice") | exact Hreload].
Defined.


(** X14 at a store that is down: [Add] fails and the identifier is in. *)
Lemma Add_Remove_commit_before_persist_witness :
  quiet (cache false ["alice"] unreachable)
  ∧ ∃ p',
      Add "bob" (cache false ["alice"] unreachable)
      = Done (Some (Wrap "set key" (ErrStore "unavailable"))) p'
      ∧ members p' = ["alice"; "bob"]
      ∧ ∃ p'', Contains "bob" p' = Done true p''.
Proof.
  split; [apply quiet_cache |].
  destruct (Add_Remove_commit_before_persist (cache false ["alice"] unreachable) "bob"
              (quiet_cache _ _ _))
    as ((p' & Hrun & Hm & Hin) & _).
  exists p'. rewrite members_cache in *.
  split; [exact Hrun |]. split; [exact Hm | exact Hin].
Defined.

(** X15 at a store that holds both keys. *)
Lemma Reload_only_reads_witness :
  quiet (cache false ["bob"] both_set)
  ∧ ∃ p',
      Reload (cache false ["bob"] both_set)
      = Done (Reload_error (cache false ["bob"] both_set)) p'
      ∧ quiet p'
      ∧ store_sets (trace p') = store_sets (trace (cache false ["bob"] both_set))
      ∧ trace p' = [EvLock; EvGet "enabled"; EvUnlock].
Proof.
  split; [apply quiet_cache |].
  destruct (Reload_only_reads (cache false ["bob"] both_set) (quiet_cache _ _ _))
    as (p' & Hrun & Hq & Hsets & Htrace).
  exists p'. split; [exact Hrun |]. split; [exact Hq |]. split; [exact Hsets |].
  rewrite Htrace. vm_compute. reflexivity.
Defined.

(** X16 at a store in which only [whitelisted] is set. *)
Lemma Reload_twice_is_Reload_once_witness :
  settled bool
  ∧ settled (list string)
  ∧ reads_are_pure (store_of [("whitelisted", Marshal ["bob"])])
  ∧ quiet (cache true ["alice"] (store_of [("whitelisted", Marshal ["bob"])]))
  ∧ ∃ p1 p2,
      Reload (cache true ["alice"] (store_of [("whitelisted", Marshal ["bob"])]))
      = Done None p1
      ∧ Reload p1 = Done None p2
      ∧ Enabled (self p2) = Enabled (self p1)
      ∧ members p2 = members p1.
Proof.
  split; [apply json_bool_settled |].
  split; [apply json_strings_settled |].
  split; [apply mem_bucket_reads_pure |].
  split; [apply quiet_cache |].
  destruct (Reload_twice_is_Reload_once
              (cache true ["alice"] (store_of [("whitelisted", Marshal ["bob"])]))
              json_bool_settled json_strings_settled
              (mem_bucket_reads_pure _) (quiet_cache _ _ _))
    as (p1 & p2 & Hrun1 & Hrun2 & Hen & Hm).
  assert (Herr : Reload_error
                   (cache true ["alice"] (store_of [("whitelisted", Marshal ["bob"])]))
                 = None).
  { vm_compute. reflexivity. }
  rewrite Herr in *.
  exists p1, p2. split; [exact Hrun1 |]. split; [exact Hrun2 |].
  split; [exact Hen | exact Hm].
Defined.

(** X17 at the same store: the reload succeeds, the flag is reset and the
    members are those of the store. *)
Lemma Reload_after_absent_enabled_witness :
  quiet (cache true ["alice"] (store_of [("whitelisted", Marshal ["bob"])]))
  ∧ absent_in (store_of [("whitelisted", Marshal ["bob"])]) "enabled" = true
  ∧ ∃ p',
      Reload (cache true ["alice"] (store_of [("whitelisted", Marshal ["bob"])]))
      = Done None p'
      ∧ Enabled (self p') = false
      ∧ members p' = ["bob"].
Proof.
  split; [apply quiet_cache |].
  assert (Habs : absent_in (kv (self (cache true ["alice"]
                                 (store_of [("whitelisted", Marshal ["bob"])]))))
                   "enabled" = true).
  { vm_compute. reflexivity. }
  split; [exact Habs |].
  destruct (Reload_after_absent_enabled
              (cache true ["alice"] (store_of [("whitelisted", Marshal ["bob"])]))
              (quiet_cache _ _ _) Habs)
    as (p' & Hrun & _ & Hen & _ & Hdata).
  destruct (Hdata (Marshal ["bob"])) as [Herr Hm].
  { vm_compute. reflexivity. }
  exists p'. split; [| split; [exact Hen |]].
  - rewrite Hrun, Herr. vm_compute. reflexivity.
  - rewrite Hm. vm_compute. reflexivity.
Defined.

(** X18 at a store that is down. *)
Lemma Reload_stops_at_failed_enabled_read_witness :
  quiet (cache true ["alice"] unreachable)
  ∧ (kv_Get unreachable "enabled").2 = inr (ErrStore "unavailable")
  ∧ chain_has ErrKeyNotFound (ErrStore "unavailable") = false
  ∧ ∃ p',
      Reload (cache true ["alice"] unreachable)
      = Done (Some (Wrap "get key" (ErrStore "unavailable"))) p'
      ∧ quiet p'
      ∧ Enabled (self p') = Enabled (self (cache true ["alice"] unreachable))
      ∧ members p' = members (cache true ["alice"] unreachable)
      ∧ trace p' = trace (cache true ["alice"] unreachable)
                   ++ [EvLock; EvGet "enabled"; EvUnlock].
Proof.
  split; [apply quiet_cache |]. split; [reflexivity |]. split; [reflexivity |].
  apply (Reload_stops_at_failed_enabled_read (cache true ["alice"] unreachable)
           (ErrStore "unavailable") (quiet_cache _ _ _)); reflexivity.
Defined.

(** X19 at [Enable] on one cache and the change delivered to another. *)
Lemma persisted_flag_reaches_watchers_witness :
  quiet (fresh_process both_set)
  ∧ quiet (cache false ["bob"] (store_of []))
  ∧ Unmarshal (Marshal true) (Enabled (self (cache false ["bob"] (store_of []))))
    = (true, None)
  ∧ ∃ err a' data,
      Enable (fresh_process both_set) = Done err a'
      ∧ store_calls (trace a')
        = store_calls (trace (fresh_process both_set)) ++ [EvSet "enabled" data]
      ∧ ∃ w',
          apply_change (Some (mkKeyValue "enabled" data)) (cache false ["bob"] (store_of []))
          = Done tt w'
          ∧ ∃ w'', IsEnabled w' = Done true w''.
Proof.
  split; [apply quiet_fresh_process |]. split; [apply quiet_cache |].
  split; [vm_compute; reflexivity |].
  apply (persisted_flag_reaches_watchers (fresh_process both_set)
           (cache false ["bob"] (store_of [])) true
           (quiet_fresh_process _) (quiet_cache _ _ _)).
  vm_compute. reflexivity.
Defined.

(** X20 at [Add] on one cache and the change delivered to a new one. *)
Lemma persisted_members_reach_watchers_witness :
  quiet (cache false ["alice"] both_set)
  ∧ quiet (fresh_process (store_of []))
  ∧ Unmarshal (Marshal (members (cache false ["alice"] both_set) ++ ["bob"]))
              (members (fresh_process (store_of [])))
    = (members (cache false ["alice"] both_set) ++ ["bob"], None)
  ∧ ∃ err a' data,
      Add "bob" (cache false ["alice"] both_set) = Done err a'
      ∧ store_calls (trace a')
        = store_calls (trace (cache false ["alice"] both_set))
          ++ [EvSet "whitelisted" data]
      ∧ ∃ w',
          apply_change (Some (mkKeyValue "whitelisted" data)) (fresh_process (store_of []))
          = Done tt w'
          ∧ members w' = members a'.
Proof.
  split; [apply quiet_cache |]. split; [apply quiet_fresh_process |].
  assert (Hround : Unmarshal (Marshal (members (cache false ["alice"] both_set) ++ ["bob"]))
                     (members (fresh_process (store_of [])))
                   = (members (cache false ["alice"] both_set) ++ ["bob"], None)).
  { vm_compute. reflexivity. }
  split; [exact Hround |].
  apply (persisted_members_reach_watchers (cache false ["alice"] both_set)
           (fresh_process (store_of [])) "bob"
           (quiet_cache _ _ _) (quiet_fresh_process _) Hround).
Defined.

End more_on_examples.
